(** * SM_LMC: model assembly and parameter estimation (mogptk/sm_lmc.py)

    A shallow embedding of the class [SM_LMC] of [mogptk/sm_lmc.py]: its
    constructor [__init__], which composes [Q] spectral-mixture-LMC kernel
    blocks and a noise block, and its method [estimate_params], which seeds
    the kernel parameters from the data.

    Python floats are idealised as real numbers: the statements below are
    equalities between the expressions the code evaluates, and none depends
    on the value the reals give to an expression that numpy evaluates to
    NaN (a division by zero, the square root of a negative number).

    Every call on a collaborator ([model], the kernels, [set_param]) is
    recorded as an event, so that a run of a method is the ordered list of
    its effects together with its outcome: a value or the exception that
    ended it. The global names that the methods read ([model],
    [SpectralMixtureLMC], [Noise], [np], [_estimate_from_sm]) are looked up,
    as Python does at call time, in the global namespace of the module,
    which is an argument [G] of both methods; [module_globals] is that
    namespace as [sm_lmc.py] leaves it. *)

From Stdlib Require Import Reals Lra.
From stdpp Require Import gmap strings list fin_maps.

Local Open Scope string_scope.
Local Open Scope list_scope.
Local Open Scope stdpp_scope.
Local Open Scope nat_scope.

(** ** Python runtime *)

(** The exceptions that the two methods can end with. [PyException] is the
    plain [Exception] that the source raises itself for a bad configuration;
    the others are raised by the interpreter or by numpy. *)
Inductive exn :=
| PyException (msg : string)
| NameError (name : string)
| UnboundLocalError (name : string)
| AttributeError (attr : string)
| TypeError (what : string)
| IndexError
| ValueError.

(** A parameter value handed to [set_param]: a vector or a matrix (a list
    of rows) of reals. *)
Inductive pval :=
| PVec (v : list R)
| PMat (m : list (list R)).

(** A kernel: the two block classes of [mogptk.kernels] with the arguments
    of their constructors, and the sum that [+=] builds. *)
Inductive kernel :=
| SpectralMixtureLMC (input_dims output_dims : nat) (Rq : Z)
| Noise (input_dims output_dims : nat)
| KAdd (k1 k2 : kernel).

(** Opaque Python objects passed through untouched (a likelihood, the
    dictionary of its parameters). *)
Inductive pyref := PyRef (id : nat).

(** The two context managers entered by the constructor. *)
Inductive context := GraphDefault | SessionDefault.

(** The effects on the collaborators, in the order they happen. *)
Inductive event :=
| EvBaseInit (name : string)
| EvEnter (c : context)
| EvExit (c : context)
| EvNewSpectralMixtureLMC (input_dims output_dims : nat) (Rq : Z)
| EvNewNoise (input_dims output_dims : nat)
| EvBuild (k : kernel) (likelihood : option pyref) (variational sparse : bool)
          (like_params : pyref)
| EvSetParam (q : Z) (name : string) (v : pval).

(** A run: the effects performed, then a value or the exception raised. *)
Definition Run (A : Type) : Type := list event * (exn + A).

Definition run_ret {A} (a : A) : Run A := ([], inr a).

Definition run_bind {A B} (f : A → Run B) (m : Run A) : Run B :=
  match m with
  | (t, inl e) => (t, inl e)
  | (t, inr a) => let '(t', r) := f a in (t ++ t', r)
  end.

Definition raise {A} (e : exn) : Run A := ([], inl e).

Definition emit (ev : event) : Run unit := ([ev], inr tt).

Global Instance Run_ret : MRet Run := @run_ret.
Global Instance Run_bind : MBind Run := @run_bind.

Definition trace {A} (m : Run A) : list event := m.1.
Definition outcome {A} (m : Run A) : exn + A := m.2.

(** [try: body finally: fin]: [fin] runs on both exits, and the exception
    of [body], if any, is raised again after it. *)
Definition finally {A} (body : Run A) (fin : Run unit) : Run A :=
  match body with
  | (t, inl e) => _ ← ((t, inr tt) : Run unit); _ ← fin; raise e
  | (t, inr a) => _ ← ((t, inr tt) : Run unit); _ ← fin; mret a
  end.

(** [with c: body] for the context managers [as_default()]. *)
Definition with_context {A} (c : context) (body : Run A) : Run A :=
  _ ← emit (EvEnter c); finally body (emit (EvExit c)).

(** [for x in xs: body], with the local variables that the body rebinds
    threaded through as [s]. *)
Fixpoint for_loop {A S} (xs : list A) (body : S → A → Run S) (s : S) : Run S :=
  match xs with
  | [] => mret s
  | x :: xs' => s' ← body s x; for_loop xs' body s'
  end.

(** [range(n)] for a Python integer [n]: empty when [n <= 0]. *)
Definition py_range (n : Z) : list nat := seq 0 (Z.to_nat n).

(** [xs[i]] on a Python list. *)
Definition py_index {A} (xs : list A) (i : nat) : Run A :=
  match xs !! i with
  | Some x => mret x
  | None => raise IndexError
  end.

(** ** numpy *)

Definition Rsum (l : list R) : R := foldr Rplus 0%R l.

(** [a.mean()] on the flattened elements of an array: sum over count. *)
Definition np_mean (l : list R) : R := (Rsum l / INR (length l))%R.

(** [a.var()]: the mean of the squared deviations from the mean (numpy's
    default [ddof=0]). *)
Definition np_var (l : list R) : R :=
  np_mean (map (λ y, (y - np_mean l) * (y - np_mean l))%R l).

(** A 2-D and a 3-D array: a shape and the element at each index. *)
Record array2 := { rows : nat; cols : nat; get2 : nat → nat → R }.
Record array3 := { dim0 : nat; dim1 : nat; dim2 : nat; get3 : nat → nat → nat → R }.

(** [a[i, :, k]] *)
Definition slice_i_k (a : array3) (i k : nat) : Run (list R) :=
  if bool_decide (i < dim0 a ∧ k < dim2 a)
  then mret (map (λ j, get3 a i j k) (seq 0 (dim1 a)))
  else raise IndexError.

(** [a[:, :, k]] *)
Definition slice_k (a : array3) (k : nat) : Run array2 :=
  if bool_decide (k < dim2 a)
  then mret {| rows := dim0 a; cols := dim1 a; get2 := λ i j, get3 a i j k |}
  else raise IndexError.

(** [a.mean(axis=0)] and [a.mean(axis=1)] on a 2-D array. *)
Definition mean_axis0 (a : array2) : list R :=
  map (λ j, np_mean (map (λ i, get2 a i j) (seq 0 (rows a)))) (seq 0 (cols a)).
Definition mean_axis1 (a : array2) : list R :=
  map (λ i, np_mean (map (λ j, get2 a i j) (seq 0 (cols a)))) (seq 0 (rows a)).

(** A matrix under construction: its column count (kept apart, an array
    of shape [(0, c)] still has [c] columns) and its rows. *)
Record matrix := { ncols : nat; mrows : list (list R) }.

(** [m.mean()]: the mean of all the cells. *)
Definition mat_mean (m : matrix) : R := np_mean (concat (mrows m)).

(** [np.empty((r, c))] and [np.empty((n))]: the cells hold whatever the
    allocated memory held, here [junk]. *)
Definition np_empty2 (junk : nat → R) (r c : nat) : matrix :=
  {| ncols := c;
     mrows := map (λ i, map (λ j, junk (i * c + j)) (seq 0 c)) (seq 0 r) |}.
Definition np_empty1 (junk : nat → R) (n : nat) : list R := map junk (seq 0 n).

(** [m[:, j] = x]: the scalar is broadcast down column [j]. *)
Definition set_column (m : matrix) (j : nat) (x : R) : Run matrix :=
  if bool_decide (j < ncols m)
  then mret {| ncols := ncols m; mrows := map (λ row, <[j := x]> row) (mrows m) |}
  else raise IndexError.

(** [np.sqrt(m / m.mean())], cell by cell. *)
Definition sqrt_normalised (m : matrix) : list (list R) :=
  map (map (λ x, sqrt (x / mat_mean m))) (mrows m).

(** [v[i] = x] *)
Definition set_item (v : list R) (i : nat) (x : R) : Run (list R) :=
  if bool_decide (i < length v) then mret (<[i := x]> v) else raise IndexError.

(** [v.reshape(r, -1)] on a vector: [r] rows of [length v / r] cells. *)
Fixpoint chunks (n r : nat) (v : list R) : list (list R) :=
  match r with
  | O => []
  | S r' => take n v :: chunks n r' (drop n v)
  end.
Definition reshape_rows (v : list R) (r : Z) : Run (list (list R)) :=
  if bool_decide (0 < r ∧ (Z.of_nat (length v) `mod` r = 0))%Z
  then mret (chunks (length v / Z.to_nat r) (Z.to_nat r) v)
  else raise ValueError.

(** ** Collaborators *)

(** Modelled from the spec: the dataset class of [mogptk] (not part of
    [sm_lmc.py]): an ordered collection of channels, each with its input
    dimensionality and its observed outputs [Y], and the PSD-peak estimator
    that returns the amplitude, mean and variance arrays, indexed by
    (channel, input dimension, component). *)
Record channel := { input_dims : nat; Y : list R }.
Record DataSet := {
  channels : list channel;
  get_bnse_estimation : Z → array3 * array3 * array3
}.

(** [dataset.get_input_dims()]: one entry per channel;
    [dataset.get_output_dims()] and [len(dataset)]: the channel count. *)
Definition get_input_dims (ds : DataSet) : list nat := map input_dims (channels ds).
Definition get_output_dims (ds : DataSet) : nat := length (channels ds).
Definition len (ds : DataSet) : nat := length (channels ds).

(** Modelled from the spec: one entry of the list returned by the
    independent-fit collaborator, a dictionary with the arrays [weight],
    [mean] and [scale]. *)
Record sm_fit := { weight : array2; mean : array2; scale : array2 }.

(** The objects a global name of the module can be bound to. *)
Inductive gobj :=
| GModel
| GSpectralMixtureLMC
| GNoise
| GSM_LMC
| GNumpy (junk : nat → R)
| GEstimateFromSM (fit : DataSet → Z → string → string → Z → bool → list sm_fit).

(** The global namespace of [sm_lmc.py] after its two import statements and
    its class statement. Neither [np] nor [_estimate_from_sm] is bound. *)
Definition module_globals : gmap string gobj :=
  <["model" := GModel]>
  (<["SpectralMixtureLMC" := GSpectralMixtureLMC]>
  (<["Noise" := GNoise]>
  (<["SM_LMC" := GSM_LMC]> ∅))).

(** Reading a global name. *)
Definition load_global (G : gmap string gobj) (name : string) : Run gobj :=
  match G !! name with
  | Some o => mret o
  | None => raise (NameError name)
  end.

(** [np.attr]: the name [np] is looked up each time it is used. *)
Definition np_attr (G : gmap string gobj) (attr : string) : Run (nat → R) :=
  o ← load_global G "np";
  match o with
  | GNumpy junk => mret junk
  | _ => raise (AttributeError attr)
  end.

(** Reading a local variable that may not have been assigned yet. *)
Definition load_local {A} (x : option A) (name : string) : Run A :=
  match x with
  | Some a => mret a
  | None => raise (UnboundLocalError name)
  end.

(** Modelled from the spec: [self.set_param(q, name, value)] of the base
    class [model] (not part of [sm_lmc.py]), the write primitive addressed
    by component index and parameter name. *)
Definition set_param (q : Z) (name : string) (v : pval) : Run unit :=
  emit (EvSetParam q name v).

(** The parameter store of a model after a list of effects: each
    [set_param] overwrites the slot it addresses. *)
Definition apply_event (s : gmap (Z * string) pval) (ev : event) : gmap (Z * string) pval :=
  match ev with
  | EvSetParam q name v => <[(q, name) := v]> s
  | _ => s
  end.
Definition replay (t : list event) (s : gmap (Z * string) pval) : gmap (Z * string) pval :=
  foldl apply_event s t.

(** Modelled from the spec: the parameter slots of a kernel block of
    [mogptk.kernels] (not part of [sm_lmc.py]) and their shapes:
    input_dims x output_dims for constant, mean and scale of a
    spectral-mixture-LMC block, output_dims for the noise of a noise
    block. *)
Definition slot_shape (k : kernel) (name : string) : option (list nat) :=
  match k with
  | SpectralMixtureLMC d m _ =>
      if bool_decide (name ∈ ["constant"; "mean"; "scale"]) then Some [d; m] else None
  | Noise d m => if bool_decide (name = "noise") then Some [m] else None
  | KAdd _ _ => None
  end.

(** The blocks of a sum, left to right. *)
Fixpoint blocks (k : kernel) : list kernel :=
  match k with
  | KAdd k1 k2 => blocks k1 ++ blocks k2
  | _ => [k]
  end.

(** ** The class [SM_LMC] *)

Module SM_LMC.

(** The attributes of an instance that the two methods use. *)
Record t := {
  name : string;
  dataset : DataSet;
  Q : Z;
  Rq : Z;
  kernel_of : kernel
}.

(** [model.__init__(self, name, dataset)] *)
Definition base_init (G : gmap string gobj) (name : string) : Run unit :=
  o ← load_global G "model";
  match o with
  | GModel => emit (EvBaseInit name)
  | _ => raise (TypeError "model.__init__")
  end.

(** [SpectralMixtureLMC(dataset.get_input_dims()[0],
    dataset.get_output_dims(), Rq)]: the callee is looked up, then the
    arguments are evaluated left to right, then the block is built. *)
Definition new_SpectralMixtureLMC (G : gmap string gobj) (ds : DataSet) (Rq : Z) : Run kernel :=
  o ← load_global G "SpectralMixtureLMC";
  d ← py_index (get_input_dims ds) 0;
  match o with
  | GSpectralMixtureLMC =>
      _ ← emit (EvNewSpectralMixtureLMC d (get_output_dims ds) Rq);
      mret (SpectralMixtureLMC d (get_output_dims ds) Rq)
  | _ => raise (TypeError "SpectralMixtureLMC")
  end.

(** [Noise(dataset.get_input_dims()[0], dataset.get_output_dims())] *)
Definition new_Noise (G : gmap string gobj) (ds : DataSet) : Run kernel :=
  o ← load_global G "Noise";
  d ← py_index (get_input_dims ds) 0;
  match o with
  | GNoise =>
      _ ← emit (EvNewNoise d (get_output_dims ds));
      mret (Noise d (get_output_dims ds))
  | _ => raise (TypeError "Noise")
  end.

(** The body of [for q in range(self.Q)] in the constructor; the local
    variable [kernel_set] is unbound ([None]) until the first pass. *)
Definition add_block (G : gmap string gobj) (ds : DataSet) (Rq : Z)
    (kernel_set : option kernel) (q : nat) : Run (option kernel) :=
  kernel ← new_SpectralMixtureLMC G ds Rq;
  if bool_decide (q = 0)
  then mret (Some kernel)
  else
    k ← load_local kernel_set "kernel_set";
    mret (Some (KAdd k kernel)).

(** [SM_LMC.__init__] (lines 18-39). In [kernel_set += Noise(...)] the
    variable is read before the right-hand side is evaluated. *)
Definition __init__ (G : gmap string gobj) (dataset : DataSet) (Q Rq : Z)
    (name : string) (likelihood : option pyref) (variational sparse : bool)
    (like_params : pyref) : Run t :=
  _ ← (if bool_decide (Rq ≠ 1%Z)
       then raise (PyException "Rq != 1 is not (yet) supported")
       else mret tt);
  _ ← base_init G name;
  with_context GraphDefault
    (with_context SessionDefault
       (kernel_set ← for_loop (py_range Q) (add_block G dataset Rq) None;
        k ← load_local kernel_set "kernel_set";
        n ← new_Noise G dataset;
        let kernel_set := KAdd k n in
        _ ← emit (EvBuild kernel_set likelihood variational sparse like_params);
        mret {| name := name; dataset := dataset; Q := Q; Rq := Rq;
                kernel_of := kernel_set |})).

(** The body of [for channel in range(len(self.dataset))] (lines 68-69). *)
Definition fill_column (amplitudes : array3) (q : nat)
    (constant : matrix) (channel : nat) : Run matrix :=
  a ← slice_i_k amplitudes channel q;
  set_column constant channel (np_mean a).

(** The body of [for q in range(self.Q)] on the BNSE path (lines 67-77). *)
Definition bnse_component (G : gmap string gobj) (self : t)
    (amplitudes means variances : array3) (_ : unit) (q : nat) : Run unit :=
  junk ← np_attr G "empty";
  d ← py_index (get_input_dims (dataset self)) 0;
  let constant := np_empty2 junk d (get_output_dims (dataset self)) in
  constant ← for_loop (py_range (Z.of_nat (len (dataset self))))
                      (fill_column amplitudes q) constant;
  _ ← np_attr G "sqrt";
  let constant := sqrt_normalised constant in
  m ← slice_k means q;
  let mean := mean_axis0 m in
  v ← slice_k variances q;
  let variance := mean_axis0 v in
  _ ← set_param (Z.of_nat q) "constant" (PMat constant);
  _ ← np_attr G "pi";
  _ ← set_param (Z.of_nat q) "mean" (PVec (map (λ x, x * 2 * PI)%R mean));
  set_param (Z.of_nat q) "scale" (PVec (map (λ x, x * 2)%R variance)).

(** The call of [_estimate_from_sm] (line 79): the name is looked up
    before anything else happens. *)
Definition _estimate_from_sm (G : gmap string gobj) (ds : DataSet) (Q : Z)
    (init method : string) (maxiter : Z) (plot : bool) : Run (list sm_fit) :=
  o ← load_global G "_estimate_from_sm";
  match o with
  | GEstimateFromSM fit => mret (fit ds Q init method maxiter plot)
  | _ => raise (TypeError "_estimate_from_sm")
  end.

(** The body of [for q in range(self.Q)] on the SM path (lines 81-83). *)
Definition sm_component (self : t) (params : list sm_fit) (_ : unit) (q : nat) : Run unit :=
  p ← py_index params q;
  constant ← reshape_rows (mean_axis0 (weight p)) (Rq self);
  _ ← set_param (Z.of_nat q) "constant" (PMat constant);
  p ← py_index params q;
  _ ← set_param (Z.of_nat q) "mean" (PVec (mean_axis1 (mean p)));
  p ← py_index params q;
  set_param (Z.of_nat q) "variance" (PVec (map (λ x, x * 2)%R (mean_axis1 (scale p)))).

(** The body of [for i, channel in enumerate(self.dataset)] (line 89). *)
Definition noise_item (noise : list R) (ic : nat * channel) : Run (list R) :=
  set_item noise ic.1 (np_var (Y ic.2) / 30)%R.

(** Lines 87-90. *)
Definition estimate_noise (G : gmap string gobj) (self : t) : Run unit :=
  junk ← np_attr G "empty";
  let noise := np_empty1 junk (get_output_dims (dataset self)) in
  noise ← for_loop (imap pair (channels (dataset self))) noise_item noise;
  set_param (Q self) "noise" (PVec noise).

(** [SM_LMC.estimate_params] (lines 41-90). *)
Definition estimate_params (G : gmap string gobj) (self : t)
    (method sm_init sm_method : string) (sm_maxiter : Z) (plot : bool) : Run unit :=
  _ ← (if bool_decide (method = "BNSE") then
         let '(amplitudes, means, variances) :=
           get_bnse_estimation (dataset self) (Q self) in
         for_loop (py_range (Q self))
                  (bnse_component G self amplitudes means variances) tt
       else if bool_decide (method = "SM") then
         params ← _estimate_from_sm G (dataset self) (Q self)
                                   sm_init sm_method sm_maxiter plot;
         for_loop (py_range (Q self)) (sm_component self params) tt
       else
         raise (PyException "possible modes are either 'BNSE' or 'SM'"));
  estimate_noise G self.

End SM_LMC.

Import SM_LMC.

(** ** Stores, write orders and the values of the specification *)

(** A call on a model whose parameter store is [store]: the store after
    the call (also after a call that raised) and the outcome. *)
Definition run_on {A} (m : Run A) (store : gmap (Z * string) pval)
    : gmap (Z * string) pval * (exn + A) :=
  (replay (trace m) store, outcome m).

(** The sum after [n] further passes of the constructor's loop. *)
Fixpoint add_blocks (k blk : kernel) (n : nat) : kernel :=
  match n with
  | O => k
  | S n' => add_blocks (KAdd k blk) blk n'
  end.

(** The slot an effect writes, if it is a [set_param]. *)
Definition write_key (ev : event) : option (Z * string) :=
  match ev with
  | EvSetParam q name _ => Some (q, name)
  | _ => None
  end.
Definition is_write (ev : event) : Prop := is_Some (write_key ev).
Definition keys (t : list event) : list (Z * string) := omap write_key t.

(** The slots of component [q], in the order they are written; the third
    is named [scale] on the BNSE path and [variance] on the SM path. *)
Definition component_keys (third : string) (q : nat) : list (Z * string) :=
  [(Z.of_nat q, "constant"); (Z.of_nat q, "mean"); (Z.of_nat q, third)].

(** The slots of a complete estimation: components [0 .. Q-1], then the
    noise at index [Q]. *)
Definition key_order (third : string) (Q : Z) : list (Z * string) :=
  concat (map (component_keys third) (py_range Q)) ++ [(Q, "noise")].

(** A run writes along [K]: all its effects are writes, the slots written
    are, in order, an initial segment of [K], and all of [K] if the run
    completes. *)
Definition follows {A} (m : Run A) (K : list (Z * string)) : Prop :=
  Forall is_write (trace m)
  ∧ keys (trace m) `prefix_of` K
  ∧ (∀ a, outcome m = inr a → keys (trace m) = K).

(** No rollback: when the loop body of component [q] raises after the
    bodies of all earlier components have completed, the call [r] raises
    the same exception and every write of the earlier components is in the
    store after the call. *)
Definition no_rollback (r : Run unit) (body : nat → Run unit) (Q : Z) : Prop :=
  ∀ q e,
    q < Z.to_nat Q →
    (∀ q', q' < q → outcome (body q') = inr tt) →
    outcome (body q) = inl e →
    outcome r = inl e
    ∧ ∀ q' k name v store,
        q' < q → EvSetParam k name v ∈ trace (body q') →
        (run_on r store).1 !! (k, name) = Some v.

(** The per-channel mean amplitude of peak [q]: the mean of
    [amplitudes[channel, :, q]]. *)
Definition channel_amplitude (amplitudes : array3) (q channel : nat) : R :=
  np_mean (map (λ j, get3 amplitudes channel j q) (seq 0 (dim1 amplitudes))).

(** The matrix of shape [(D, M)] whose column [channel] holds that
    channel's mean amplitude. *)
Definition amplitude_matrix (amplitudes : array3) (q D M : nat) : matrix :=
  {| ncols := M;
     mrows := replicate D (map (channel_amplitude amplitudes q) (seq 0 M)) |}.

(** The constant matrix of the specification: the square root of the
    per-channel mean amplitude divided by the global mean of the matrix. *)
Definition spec_constant (amplitudes : array3) (q D M : nat) : list (list R) :=
  replicate D
    (map (λ channel,
            sqrt (channel_amplitude amplitudes q channel
                  / mat_mean (amplitude_matrix amplitudes q D M)))
         (seq 0 M)).

(** The average across channels (axis 0) of [a[:, :, q]], one entry per
    input dimension. *)
Definition channel_average (a : array3) (q : nat) : list R :=
  map (λ j, np_mean (map (λ i, get3 a i j q) (seq 0 (dim0 a)))) (seq 0 (dim1 a)).

(** The three writes of component [q] on the BNSE path, per the
    specification. *)
Definition spec_bnse_writes (amplitudes means variances : array3) (D M q : nat)
    : list event :=
  [EvSetParam (Z.of_nat q) "constant" (PMat (spec_constant amplitudes q D M));
   EvSetParam (Z.of_nat q) "mean"
     (PVec (map (λ x, x * 2 * PI)%R (channel_average means q)));
   EvSetParam (Z.of_nat q) "scale"
     (PVec (map (λ x, x * 2)%R (channel_average variances q)))].

(** The matrix of line 67 after the passes of the loop of lines 68-69 for
    the channels below [k]: the columns below [k] are filled, the others
    still hold what [np.empty] left. *)
Definition filled_columns (amplitudes : array3) (junk : nat → R) (q D M k : nat)
    : matrix :=
  {| ncols := M;
     mrows := map (λ i, map (channel_amplitude amplitudes q) (seq 0 k)
                        ++ map (λ j, junk (i * M + j)) (seq k (M - k)))
                  (seq 0 D) |}.

(** The noise vector of the specification: the population variance of
    each channel's outputs, over 30. *)
Definition spec_noise (ds : DataSet) : list R :=
  map (λ c, np_var (Y c) / 30)%R (channels ds).

(** The three writes of component [q] on the SM path, per the
    specification, from the fit [p] of that component: the weight averaged
    over axis 0 as one row, the mean averaged over axis 1, the scale
    averaged over axis 1 and doubled. *)
Definition spec_sm_writes (params : list sm_fit) (q : nat) : list event :=
  match params !! q with
  | Some p =>
      [EvSetParam (Z.of_nat q) "constant" (PMat [mean_axis0 (weight p)]);
       EvSetParam (Z.of_nat q) "mean" (PVec (mean_axis1 (mean p)));
       EvSetParam (Z.of_nat q) "variance"
         (PVec (map (λ x, x * 2)%R (mean_axis1 (scale p))))]
  | None => []
  end.

(** Two channels with one input dimension; one PSD peak per channel, of
    amplitude, mean and variance 1 for the first channel and 2 for the
    second. *)
Definition example_peaks : array3 :=
  {| dim0 := 2; dim1 := 1; dim2 := 1; get3 := λ channel _ _, INR (S channel) |}.

Definition example_dataset : DataSet :=
  {| channels := [ {| input_dims := 1; Y := [1; 3]%R |};
                   {| input_dims := 1; Y := [2; 2; 5]%R |} ];
     get_bnse_estimation := λ _, (example_peaks, example_peaks, example_peaks) |}.

Definition example_model (Q : Z) : SM_LMC.t :=
  {| name := "SM-LMC"; dataset := example_dataset; Q := Q; Rq := 1;
     kernel_of := KAdd (SpectralMixtureLMC 1 2 1) (Noise 1 2) |}.

(** One fitted component: arrays of shape (1, 2). *)
Definition example_fit_array : array2 :=
  {| rows := 1; cols := 2; get2 := λ _ j, INR (S j) |}.
Definition example_fit
    (_ : DataSet) (_ : Z) (_ _ : string) (_ : Z) (_ : bool) : list sm_fit :=
  [ {| weight := example_fit_array; mean := example_fit_array;
       scale := example_fit_array |} ].

(** The namespace of the module with the two missing names bound, as after
    [import numpy as np] and an import of [_estimate_from_sm]. *)
Definition repaired_globals (junk : nat → R) : gmap string gobj :=
  <["np" := GNumpy junk]>
  (<["_estimate_from_sm" := GEstimateFromSM example_fit]> module_globals).

(** The body of the two [with] statements of the constructor (lines
    28-39), apart, to reason on what runs between entering and leaving the
    contexts. *)
Definition init_body (G : gmap string gobj) (dataset : DataSet) (Q Rq : Z)
    (name : string) (likelihood : option pyref) (variational sparse : bool)
    (like_params : pyref) : Run SM_LMC.t :=
  kernel_set ← for_loop (py_range Q) (add_block G dataset Rq) None;
  k ← load_local kernel_set "kernel_set";
  n ← new_Noise G dataset;
  let kernel_set := KAdd k n in
  _ ← emit (EvBuild kernel_set likelihood variational sparse like_params);
  mret {| name := name; dataset := dataset; Q := Q; Rq := Rq;
          kernel_of := kernel_set |}.

(** The effects of the constructor around that body. *)
Definition init_prefix (name : string) : list event :=
  [EvBaseInit name; EvEnter GraphDefault; EvEnter SessionDefault].
Definition init_suffix : list event :=
  [EvExit SessionDefault; EvExit GraphDefault].

(** A global namespace in which each of the three names the constructor
    reads is unbound or bound to the class that [sm_lmc.py] imports under
    that name. *)
Definition bound_as_imported (G : gmap string gobj) : Prop :=
  (G !! "model" = None ∨ G !! "model" = Some GModel)
  ∧ (G !! "SpectralMixtureLMC" = None
     ∨ G !! "SpectralMixtureLMC" = Some GSpectralMixtureLMC)
  ∧ (G !! "Noise" = None ∨ G !! "Noise" = Some GNoise).

(** ** The run monad *)

Section run_laws.
Context {A B : Type}.
Implicit Types (f : A → Run B) (a : A) (e : exn) (ev : event).

Lemma bind_ret a f : mret a ≫= f = f a.
Proof.
  unfold mbind, Run_bind, mret, Run_ret, run_bind, run_ret.
  by destruct (f a).
Qed.

Lemma bind_raise e f : raise e ≫= f = raise e.
Proof. reflexivity. Qed.

Lemma bind_failed (t : list event) e f : ((t, inl e) : Run A) ≫= f = (t, inl e).
Proof. reflexivity. Qed.

Lemma bind_done (t : list event) a f :
  ((t, inr a) : Run A) ≫= f = (t ++ trace (f a), outcome (f a)).
Proof.
  unfold mbind, Run_bind, run_bind, trace, outcome. by destruct (f a).
Qed.

Lemma trace_bind (m : Run A) f :
  trace (m ≫= f) =
  trace m ++ match outcome m with inl _ => [] | inr a => trace (f a) end.
Proof.
  destruct m as [t [e|a]].
  - rewrite bind_failed. cbn. by rewrite app_nil_r.
  - by rewrite bind_done.
Qed.

Lemma outcome_bind (m : Run A) f :
  outcome (m ≫= f) =
  match outcome m with inl e => inl e | inr a => outcome (f a) end.
Proof.
  destruct m as [t [e|a]].
  - by rewrite bind_failed.
  - by rewrite bind_done.
Qed.
End run_laws.

Lemma bind_emit {B} ev (f : unit → Run B) :
  emit ev ≫= f = (ev :: trace (f tt), outcome (f tt)).
Proof. unfold emit. by rewrite bind_done. Qed.

Lemma trace_pair {A} (t : list event) (o : exn + A) : trace (t, o) = t.
Proof. reflexivity. Qed.

Lemma outcome_pair {A} (t : list event) (o : exn + A) : outcome (t, o) = o.
Proof. reflexivity. Qed.

Lemma run_eta {A} (m : Run A) : m = (trace m, outcome m).
Proof. by destruct m. Qed.

(** The two equations of [for_loop]. *)
Lemma for_loop_cons {A S} (x : A) xs (body : S → A → Run S) s :
  for_loop (x :: xs) body s = body s x ≫= for_loop xs body.
Proof. reflexivity. Qed.

Lemma for_loop_nil {A S} (body : S → A → Run S) s :
  for_loop [] body s = mret s.
Proof. reflexivity. Qed.

(** ** Name resolution in the module as written *)

Lemma np_unbound : module_globals !! "np" = None.
Proof. reflexivity. Qed.

Lemma estimate_from_sm_unbound : module_globals !! "_estimate_from_sm" = None.
Proof. reflexivity. Qed.

Lemma np_attr_unbound G attr :
  G !! "np" = None → np_attr G attr = raise (NameError "np").
Proof. intros H. unfold np_attr, load_global. by rewrite H. Qed.

Lemma np_attr_numpy G junk attr :
  G !! "np" = Some (GNumpy junk) → np_attr G attr = mret junk.
Proof. intros H. unfold np_attr, load_global. rewrite H. by rewrite bind_ret. Qed.

Lemma estimate_noise_unbound G self :
  G !! "np" = None → estimate_noise G self = raise (NameError "np").
Proof. intros H. unfold estimate_noise. by rewrite (np_attr_unbound G "empty" H). Qed.

Lemma bnse_component_unbound G self amplitudes means variances q :
  G !! "np" = None →
  bnse_component G self amplitudes means variances tt q = raise (NameError "np").
Proof. intros H. unfold bnse_component. by rewrite (np_attr_unbound G "empty" H). Qed.

Lemma bnse_loop_unbound G self amplitudes means variances qs :
  G !! "np" = None →
  for_loop qs (bnse_component G self amplitudes means variances) tt ≫=
    (λ _, estimate_noise G self) = raise (NameError "np").
Proof.
  intros H. destruct qs as [|q qs].
  - rewrite for_loop_nil, bind_ret. by apply estimate_noise_unbound.
  - by rewrite for_loop_cons, bnse_component_unbound.
Qed.

(** ** The calls that raise at once *)

(** C4. In the module as written, [estimate_params] with a recognised
    method ends with a [NameError] before any parameter is written: on the
    BNSE path for the name [np], on the SM path for [_estimate_from_sm];
    and whatever the method, the call never completes. *)
Theorem estimate_params_name_error self sm_init sm_method sm_maxiter plot :
  estimate_params module_globals self "BNSE" sm_init sm_method sm_maxiter plot
    = ([], inl (NameError "np"))
  ∧ estimate_params module_globals self "SM" sm_init sm_method sm_maxiter plot
    = ([], inl (NameError "_estimate_from_sm"))
  ∧ ∀ method, ∃ e,
      estimate_params module_globals self method sm_init sm_method sm_maxiter plot
      = ([], inl e).
Proof.
  assert (HB : estimate_params module_globals self "BNSE" sm_init sm_method
                 sm_maxiter plot = ([], inl (NameError "np"))).
  { unfold estimate_params. rewrite bool_decide_eq_true_2 by done.
    destruct (get_bnse_estimation _ _) as [[amplitudes means] variances].
    by apply bnse_loop_unbound, np_unbound. }
  assert (HS : estimate_params module_globals self "SM" sm_init sm_method
                 sm_maxiter plot = ([], inl (NameError "_estimate_from_sm"))).
  { unfold estimate_params. rewrite bool_decide_eq_false_2 by done.
    rewrite bool_decide_eq_true_2 by done.
    unfold _estimate_from_sm, load_global.
    by rewrite estimate_from_sm_unbound. }
  split_and!; [done | done |].
  intros method. unfold estimate_params.
  destruct (bool_decide (method = "BNSE")) eqn:Hb.
  - apply bool_decide_eq_true_1 in Hb as ->. eexists. exact HB.
  - destruct (bool_decide (method = "SM")) eqn:Hs.
    + apply bool_decide_eq_true_1 in Hs as ->. eexists.
      unfold estimate_params in HS.
      rewrite bool_decide_eq_false_2, bool_decide_eq_true_2 in HS by done.
      exact HS.
    + eexists. reflexivity.
Qed.

(** C6. With a method other than 'BNSE' and 'SM', [estimate_params] raises
    the configuration error without any effect: no [set_param] call is
    made, so the parameter store of the model is left as it was. *)
Theorem estimate_params_unknown_method G self method sm_init sm_method sm_maxiter plot :
  method ≠ "BNSE" → method ≠ "SM" →
  estimate_params G self method sm_init sm_method sm_maxiter plot
    = ([], inl (PyException "possible modes are either 'BNSE' or 'SM'"))
  ∧ ∀ store,
      (run_on (estimate_params G self method sm_init sm_method sm_maxiter plot) store).1
      = store.
Proof.
  intros Hb Hs.
  assert (E : estimate_params G self method sm_init sm_method sm_maxiter plot
              = ([], inl (PyException "possible modes are either 'BNSE' or 'SM'"))).
  { unfold estimate_params. by rewrite !bool_decide_eq_false_2 by done. }
  split; [exact E |]. intros store. by rewrite E.
Qed.

Lemma estimate_params_unknown_method_witness :
  estimate_params module_globals
    {| name := "SM-LMC";
       dataset := {| channels := []; get_bnse_estimation := λ _,
                     let a := {| dim0 := 0; dim1 := 0; dim2 := 0; get3 := λ _ _ _, 0%R |}
                     in (a, a, a) |};
       Q := 1; Rq := 1; kernel_of := Noise 0 0 |}
    "MOSM" "BNSE" "BFGS" 2000 false
  = ([], inl (PyException "possible modes are either 'BNSE' or 'SM'")).
Proof.
  apply (estimate_params_unknown_method module_globals _ "MOSM"); discriminate.
Defined.

(** C5. With [Rq] other than 1 the constructor raises the configuration
    error at once: its run has no effect at all, so the base class is not
    initialised, no context is entered and no kernel block is built. *)
Theorem init_rejects_Rq G dataset Q Rq name likelihood variational sparse like_params :
  Rq ≠ 1%Z →
  __init__ G dataset Q Rq name likelihood variational sparse like_params
  = ([], inl (PyException "Rq != 1 is not (yet) supported")).
Proof.
  intros H. unfold __init__. by rewrite bool_decide_eq_true_2.
Qed.

Lemma init_rejects_Rq_witness :
  __init__ module_globals
    {| channels := [ {| input_dims := 1; Y := [] |} ];
       get_bnse_estimation := λ _,
         let a := {| dim0 := 0; dim1 := 0; dim2 := 0; get3 := λ _ _ _, 0%R |}
         in (a, a, a) |}
    3 2 "SM-LMC" None false false (PyRef 0)
  = ([], inl (PyException "Rq != 1 is not (yet) supported")).
Proof. apply init_rejects_Rq. discriminate. Defined.

(** ** Model assembly *)

(** C10. With [Q = 0] (and the supported [Rq = 1]) the constructor does not
    raise a configuration error: the base class is initialised and both
    contexts are entered, the loop body never runs, no block is built, and
    reading [kernel_set] for the noise block raises [UnboundLocalError]. *)
Theorem init_Q_zero_unbound_local dataset name likelihood variational sparse like_params :
  __init__ module_globals dataset 0 1 name likelihood variational sparse like_params
  = ([EvBaseInit name; EvEnter GraphDefault; EvEnter SessionDefault;
      EvExit SessionDefault; EvExit GraphDefault],
     inl (UnboundLocalError "kernel_set")).
Proof.
  unfold __init__. rewrite bool_decide_eq_false_2 by (intros H; by apply H).
  rewrite bind_ret.
  change (base_init module_globals name) with (emit (EvBaseInit name)).
  rewrite bind_emit. unfold with_context. rewrite !bind_emit.
  change (py_range 0) with (@nil nat). rewrite for_loop_nil, bind_ret.
  cbn [load_local]. rewrite bind_raise.
  reflexivity.
Qed.

Lemma blocks_add_blocks k blk n :
  blocks blk = [blk] →
  blocks (add_blocks k blk n) = blocks k ++ replicate n blk.
Proof.
  intros Hblk. revert k. induction n as [|n IH]; intros k; simpl.
  - by rewrite app_nil_r.
  - rewrite IH. simpl. rewrite Hblk. by rewrite <- app_assoc.
Qed.

Section assembly.
Variables (ds : DataSet) (c : channel) (cs : list channel) (Rq : Z).
Hypothesis Hchannels : channels ds = c :: cs.

Let D := input_dims c.
Let M := get_output_dims ds.

Lemma first_input_dims : py_index (get_input_dims ds) 0 = mret D.
Proof. unfold py_index, get_input_dims. by rewrite Hchannels. Qed.

Lemma new_SpectralMixtureLMC_ok :
  new_SpectralMixtureLMC module_globals ds Rq
  = ([EvNewSpectralMixtureLMC D M Rq], inr (SpectralMixtureLMC D M Rq)).
Proof.
  unfold new_SpectralMixtureLMC.
  change (load_global module_globals "SpectralMixtureLMC") with
    (mret GSpectralMixtureLMC : Run gobj).
  by rewrite bind_ret, first_input_dims, bind_ret.
Qed.

Lemma new_Noise_ok :
  new_Noise module_globals ds = ([EvNewNoise D M], inr (Noise D M)).
Proof.
  unfold new_Noise.
  change (load_global module_globals "Noise") with (mret GNoise : Run gobj).
  by rewrite bind_ret, first_input_dims, bind_ret.
Qed.

(** One pass of the loop: the first binds [kernel_set], the others add
    to it. *)
Lemma add_block_first kernel_set :
  add_block module_globals ds Rq kernel_set 0
  = ([EvNewSpectralMixtureLMC D M Rq], inr (Some (SpectralMixtureLMC D M Rq))).
Proof.
  unfold add_block. by rewrite new_SpectralMixtureLMC_ok, bind_done.
Qed.

Lemma add_block_next k q :
  0 < q →
  add_block module_globals ds Rq (Some k) q
  = ([EvNewSpectralMixtureLMC D M Rq],
     inr (Some (KAdd k (SpectralMixtureLMC D M Rq)))).
Proof.
  intros Hq. unfold add_block.
  rewrite new_SpectralMixtureLMC_ok, bind_done.
  by rewrite bool_decide_eq_false_2 by lia.
Qed.

(** The passes after the first one: each builds one block and adds it. *)
Lemma add_block_loop_tail n a k :
  0 < a →
  for_loop (seq a n) (add_block module_globals ds Rq) (Some k)
  = (replicate n (EvNewSpectralMixtureLMC D M Rq),
     inr (Some (add_blocks k (SpectralMixtureLMC D M Rq) n))).
Proof.
  revert a k. induction n as [|n IH]; intros a k Ha; [done |].
  simpl seq. rewrite for_loop_cons, add_block_next, bind_done by done.
  by rewrite IH by lia.
Qed.

(** The whole loop, for at least one pass. *)
Lemma add_block_loop n :
  for_loop (seq 0 (S n)) (add_block module_globals ds Rq) None
  = (replicate (S n) (EvNewSpectralMixtureLMC D M Rq),
     inr (Some (add_blocks (SpectralMixtureLMC D M Rq)
                           (SpectralMixtureLMC D M Rq) n))).
Proof.
  simpl seq. rewrite for_loop_cons, add_block_first, bind_done.
  by rewrite add_block_loop_tail by lia.
Qed.
End assembly.

(** C7 (as amended). For a dataset with at least one channel, [Q >= 1] and
    [Rq = 1], the constructor succeeds; it builds exactly [Q]
    spectral-mixture-LMC blocks and then one noise block, each with the
    input dimensionality of the first channel and the output dimensionality
    of the dataset; the kernel handed to the base class is their sum, noise
    last; the slots of each block have the shapes input_dims x output_dims
    (constant, mean, scale) and output_dims (noise). *)
Theorem init_builds_blocks ds c cs Q name likelihood variational sparse like_params :
  channels ds = c :: cs → (1 ≤ Q)%Z →
  let D := input_dims c in
  let M := get_output_dims ds in
  ∃ self,
    __init__ module_globals ds Q 1 name likelihood variational sparse like_params
    = ([EvBaseInit name; EvEnter GraphDefault; EvEnter SessionDefault]
       ++ replicate (Z.to_nat Q) (EvNewSpectralMixtureLMC D M 1)
       ++ [EvNewNoise D M;
           EvBuild (kernel_of self) likelihood variational sparse like_params;
           EvExit SessionDefault; EvExit GraphDefault],
       inr self)
    ∧ SM_LMC.Q self = Q ∧ SM_LMC.Rq self = 1%Z ∧ dataset self = ds
    ∧ blocks (kernel_of self)
      = replicate (Z.to_nat Q) (SpectralMixtureLMC D M 1) ++ [Noise D M]
    ∧ ∀ k, k ∈ blocks (kernel_of self) →
        (k = SpectralMixtureLMC D M 1
         ∧ slot_shape k "constant" = Some [D; M]
         ∧ slot_shape k "mean" = Some [D; M]
         ∧ slot_shape k "scale" = Some [D; M])
        ∨ (k = Noise D M ∧ slot_shape k "noise" = Some [M]).
Proof.
  intros Hch HQ D M.
  destruct (Z.to_nat Q) as [|n] eqn:Hn; [lia |].
  set (blk := SpectralMixtureLMC D M 1).
  set (ks := KAdd (add_blocks blk blk n) (Noise D M)).
  assert (Hblocks : blocks ks = replicate (S n) blk ++ [Noise D M]).
  { subst ks. cbn [blocks]. rewrite blocks_add_blocks by done. done. }
  exists {| SM_LMC.name := name; dataset := ds; SM_LMC.Q := Q; SM_LMC.Rq := 1;
            kernel_of := ks |}.
  split_and!; [| done | done | done | exact Hblocks |].
  - unfold __init__. rewrite bool_decide_eq_false_2 by (intros H; by apply H).
    rewrite bind_ret.
    change (base_init module_globals name) with (emit (EvBaseInit name)).
    rewrite bind_emit. unfold with_context. rewrite !bind_emit.
    unfold py_range. rewrite Hn, (add_block_loop ds c cs 1 Hch n), bind_done.
    cbn [load_local]. rewrite bind_ret, (new_Noise_ok ds c cs Hch), bind_done.
    rewrite bind_emit. cbn. by rewrite <- !app_assoc.
  - cbn [kernel_of]. rewrite Hblocks. intros k [Hk | Hk]%elem_of_app.
    + apply elem_of_replicate in Hk as [-> _]. by left.
    + apply list_elem_of_singleton in Hk as ->. by right.
Qed.

Lemma init_builds_blocks_witness :
  ∃ self,
    outcome (__init__ module_globals
      {| channels := [ {| input_dims := 1; Y := [] |};
                       {| input_dims := 1; Y := [] |} ];
         get_bnse_estimation := λ _,
           let a := {| dim0 := 0; dim1 := 0; dim2 := 0; get3 := λ _ _ _, 0%R |}
           in (a, a, a) |}
      2 1 "SM-LMC" None false false (PyRef 0)) = inr self
    ∧ blocks (kernel_of self)
      = [SpectralMixtureLMC 1 2 1; SpectralMixtureLMC 1 2 1; Noise 1 2].
Proof.
  edestruct (init_builds_blocks
    {| channels := [ {| input_dims := 1; Y := [] |};
                     {| input_dims := 1; Y := [] |} ];
       get_bnse_estimation := λ _,
         let a := {| dim0 := 0; dim1 := 0; dim2 := 0; get3 := λ _ _ _, 0%R |}
         in (a, a, a) |}
    _ _ 2 "SM-LMC" None false false (PyRef 0) eq_refl)
    as (self & Hrun & _ & _ & _ & Hblocks & _); [lia |].
  exists self. split; [by rewrite Hrun | exact Hblocks].
Defined.

(** C7 as stated fails for a dataset without channels: with [Q = 1] and
    [Rq = 1] the first pass of the loop reads [get_input_dims()[0]] of an
    empty list, and the constructor ends with [IndexError] before any block
    is built. *)
Lemma init_empty_dataset_fails :
  __init__ module_globals
    {| channels := [];
       get_bnse_estimation := λ _,
         let a := {| dim0 := 0; dim1 := 0; dim2 := 0; get3 := λ _ _ _, 0%R |}
         in (a, a, a) |}
    1 1 "SM-LMC" None false false (PyRef 0)
  = ([EvBaseInit "SM-LMC"; EvEnter GraphDefault; EvEnter SessionDefault;
      EvExit SessionDefault; EvExit GraphDefault],
     inl IndexError).
Proof. reflexivity. Qed.

(** ** The parameter store *)

Lemma keys_app t1 t2 : keys (t1 ++ t2) = keys t1 ++ keys t2.
Proof. apply omap_app. Qed.

Lemma replay_app (t1 t2 : list event) (s : gmap (Z * string) pval) : replay (t1 ++ t2) s = replay t2 (replay t1 s).
Proof. apply foldl_app. Qed.

Lemma replay_cons (ev : event) (t : list event) (s : gmap (Z * string) pval) :
  replay (ev :: t) s = replay t (apply_event s ev).
Proof. reflexivity. Qed.




Lemma replay_lookup_other (t : list event) (s : gmap (Z * string) pval) k :
  k ∉ keys t → replay t s !! k = s !! k.
Proof.
  revert s. induction t as [|ev t IH]; intros s Hk; [done |].
  rewrite replay_cons. destruct ev; cbn in Hk; try by apply IH.
  apply not_elem_of_cons in Hk as [Hne Hk].
  rewrite IH by done. cbn. by rewrite lookup_insert_ne.
Qed.

(** A slot written once in a run holds the written value afterwards. *)
Lemma replay_lookup_written (t : list event) (s : gmap (Z * string) pval) q name v :
  NoDup (keys t) → EvSetParam q name v ∈ t →
  replay t s !! (q, name) = Some v.
Proof.
  revert s. induction t as [|ev t IH]; intros s Hnd Hin.
  - by apply elem_of_nil in Hin.
  - apply elem_of_cons in Hin as [<- | Hin].
    + rewrite replay_cons. cbn in Hnd. apply NoDup_cons in Hnd as [Hk _].
      rewrite replay_lookup_other by done. cbn. by rewrite lookup_insert_eq.
    + rewrite replay_cons. apply IH; [| done].
      destruct ev; cbn in Hnd; try done. by apply NoDup_cons in Hnd as [_ ?].
Qed.

Lemma replay_last_write (t : list event) (s : gmap (Z * string) pval) q name v :
  replay (t ++ [EvSetParam q name v]) s !! (q, name) = Some v.
Proof. rewrite replay_app. cbn. apply lookup_insert_eq. Qed.

(** ** The order of the writes *)

Section follows.
Context {A B : Type}.

Lemma follows_silent (m : Run A) : trace m = [] → follows m [].
Proof. intros H. unfold follows. rewrite H. by split_and!. Qed.

Lemma follows_ret (a : A) : follows (mret a) [].
Proof. by apply follows_silent. Qed.

Lemma follows_raise e K : follows (raise e : Run A) K.
Proof.
  split_and!; [done | apply prefix_nil | done].
Qed.

Lemma follows_bind (m : Run A) (f : A → Run B) K1 K2 :
  follows m K1 → (∀ a, follows (f a) K2) → follows (m ≫= f) (K1 ++ K2).
Proof.
  intros (Hw & Hp & Hc) Hf. destruct m as [t [e|a]].
  - rewrite bind_failed. unfold follows.
    rewrite ?trace_pair, ?outcome_pair in *. split_and!; [done | | done].
    by apply prefix_app_r.
  - rewrite bind_done. destruct (Hf a) as (Hw' & Hp' & Hc').
    unfold follows. rewrite ?trace_pair, ?outcome_pair in *.
    rewrite keys_app, (Hc a eq_refl).
    split_and!.
    + by apply Forall_app.
    + by apply prefix_app.
    + intros b Hb. f_equal. by apply (Hc' b).
Qed.

Lemma follows_silent_bind (m : Run A) (f : A → Run B) K :
  trace m = [] → (∀ a, follows (f a) K) → follows (m ≫= f) K.
Proof.
  intros Hm Hf. change K with ([] ++ K).
  apply follows_bind; [by apply follows_silent | done].
Qed.
End follows.

Lemma follows_set_param q name v : follows (set_param q name v) [(q, name)].
Proof.
  split_and!; [| done | done].
  apply Forall_singleton. by eexists.
Qed.

Lemma follows_for_loop {X} (xs : list X) (body : unit → X → Run unit) K :
  (∀ x, follows (body tt x) (K x)) →
  follows (for_loop xs body tt) (concat (map K xs)).
Proof.
  intros Hbody. induction xs as [|x xs IH].
  - apply follows_ret.
  - rewrite for_loop_cons. cbn [map concat].
    apply follows_bind; [done |]. by intros [].
Qed.

(** Loops that only compute: no effect. *)
Lemma for_loop_silent {X S} (xs : list X) (body : S → X → Run S) s :
  (∀ s x, trace (body s x) = []) → trace (for_loop xs body s) = [].
Proof.
  intros Hbody. revert s. induction xs as [|x xs IH]; intros s; [done |].
  rewrite for_loop_cons, trace_bind, Hbody.
  destruct (outcome (body s x)); [done | apply IH].
Qed.

(** A loop whose body raises at [x], after completing on all of [l1]. *)
Lemma for_loop_raises {X} (l1 l2 : list X) x (body : unit → X → Run unit) e :
  (∀ y, y ∈ l1 → outcome (body tt y) = inr tt) →
  outcome (body tt x) = inl e →
  for_loop (l1 ++ x :: l2) body tt
  = (concat (map (λ y, trace (body tt y)) l1) ++ trace (body tt x), inl e).
Proof.
  intros Hl1 Hx. induction l1 as [|y l1 IH].
  - cbn [app map concat]. rewrite for_loop_cons.
    rewrite (run_eta (body tt x)), Hx. by rewrite bind_failed.
  - cbn [app map concat]. rewrite for_loop_cons.
    rewrite (run_eta (body tt y)), (Hl1 y) by by left.
    rewrite bind_done, IH by (intros; apply Hl1; by right).
    cbn. by rewrite <- app_assoc.
Qed.

(** The computing steps have no effect on the collaborators. *)
Lemma trace_load_global G name : trace (load_global G name) = [].
Proof. unfold load_global. by destruct (G !! name). Qed.

Lemma trace_np_attr G attr : trace (np_attr G attr) = [].
Proof. unfold np_attr, load_global. by destruct (G !! "np") as [[]|]. Qed.

Lemma trace_py_index {X} (xs : list X) i : trace (py_index xs i) = [].
Proof. unfold py_index. by destruct (xs !! i). Qed.

Lemma trace_slice_i_k a i k : trace (slice_i_k a i k) = [].
Proof. unfold slice_i_k. by case_bool_decide. Qed.

Lemma trace_slice_k a k : trace (slice_k a k) = [].
Proof. unfold slice_k. by case_bool_decide. Qed.

Lemma trace_set_column m j x : trace (set_column m j x) = [].
Proof. unfold set_column. by case_bool_decide. Qed.

Lemma trace_set_item v i x : trace (set_item v i x) = [].
Proof. unfold set_item. by case_bool_decide. Qed.

Lemma trace_reshape_rows v r : trace (reshape_rows v r) = [].
Proof. unfold reshape_rows. by case_bool_decide. Qed.

Lemma trace_fill_column amplitudes q constant channel :
  trace (fill_column amplitudes q constant channel) = [].
Proof.
  unfold fill_column. rewrite trace_bind, trace_slice_i_k.
  destruct (outcome _); [done | apply trace_set_column].
Qed.

Lemma trace_fill_columns amplitudes q xs constant :
  trace (for_loop xs (fill_column amplitudes q) constant) = [].
Proof. apply for_loop_silent. intros. apply trace_fill_column. Qed.

Lemma trace_noise_items xs noise : trace (for_loop xs noise_item noise) = [].
Proof. apply for_loop_silent. intros. apply trace_set_item. Qed.

Lemma trace_estimate_from_sm G ds Q init method maxiter plot :
  trace (_estimate_from_sm G ds Q init method maxiter plot) = [].
Proof.
  unfold _estimate_from_sm, load_global.
  by destruct (G !! "_estimate_from_sm") as [[]|].
Qed.

Create HintDb silent.
#[local] Hint Resolve trace_load_global trace_np_attr trace_py_index
  trace_slice_i_k trace_slice_k trace_set_column trace_set_item
  trace_reshape_rows trace_fill_columns trace_noise_items
  trace_estimate_from_sm : silent.

(** One step of a proof that a run writes along a list of slots. *)
Ltac follow_step :=
  first
    [ apply follows_set_param
    | apply follows_ret
    | apply follows_raise
    | apply follows_silent_bind; [solve [auto with silent] | intros ?]
    | apply (follows_bind _ _ [_] _); [apply follows_set_param | intros ?] ].

Lemma follows_bnse_component G self amplitudes means variances q :
  follows (bnse_component G self amplitudes means variances tt q)
          (component_keys "scale" q).
Proof. unfold bnse_component, component_keys. repeat follow_step. Qed.

Lemma follows_sm_component self params q :
  follows (sm_component self params tt q) (component_keys "variance" q).
Proof. unfold sm_component, component_keys. repeat follow_step. Qed.

Lemma follows_estimate_noise G self :
  follows (estimate_noise G self) [(Q self, "noise")].
Proof. unfold estimate_noise. repeat follow_step. Qed.

Lemma follows_estimate_params G self method sm_init sm_method sm_maxiter plot :
  follows (estimate_params G self method sm_init sm_method sm_maxiter plot)
          (key_order (if bool_decide (method = "BNSE") then "scale" else "variance")
                     (Q self)).
Proof.
  unfold estimate_params, key_order.
  apply follows_bind; [| intros; apply follows_estimate_noise].
  case_bool_decide.
  - destruct (get_bnse_estimation _ _) as [[amplitudes means] variances].
    apply follows_for_loop. intros q. apply follows_bnse_component.
  - case_bool_decide; [| apply follows_raise].
    follow_step. apply follows_for_loop. intros q. apply follows_sm_component.
Qed.

Lemma elem_of_concat_map {X Y} (f : X → list Y) (xs : list X) (y : Y) :
  y ∈ concat (map f xs) → ∃ x, x ∈ xs ∧ y ∈ f x.
Proof.
  induction xs as [|x xs IH]; cbn [map concat].
  - by intros ?%elem_of_nil.
  - intros [H | H]%elem_of_app.
    + exists x. split; [by left | done].
    + destruct (IH H) as (x' & ? & ?). exists x'. split; [by right | done].
Qed.

(** No slot occurs twice in a complete estimation. *)
Lemma elem_of_component_keys third q k :
  k ∈ component_keys third q →
  k.1 = Z.of_nat q ∧ k.2 ∈ ["constant"; "mean"; third].
Proof.
  unfold component_keys. rewrite !elem_of_cons, elem_of_nil.
  intros [-> | [-> | [-> | []]]]; cbn; (split; [done |]).
  - by left.
  - right. by left.
  - right. right. by left.
Qed.

Lemma NoDup_component_keys third a n :
  third ≠ "constant" → third ≠ "mean" →
  NoDup (concat (map (component_keys third) (seq a n))).
Proof.
  intros H1 H2. revert a. induction n as [|n IH]; intros a; [constructor |].
  cbn [seq map concat]. apply NoDup_app. split_and!.
  - unfold component_keys.
    apply NoDup_cons; split; [| apply NoDup_cons; split;
                                 [| apply NoDup_singleton]].
    + rewrite !elem_of_cons, elem_of_nil.
      intros [[=] | [[=] | []]]. by apply H1.
    + rewrite elem_of_cons, elem_of_nil.
      intros [[=] | []]. by apply H2.
  - intros k Hk (q & Hq%elem_of_seq & Hin)%elem_of_concat_map.
    apply elem_of_component_keys in Hk as [Hk _].
    apply elem_of_component_keys in Hin as [Hin _]. lia.
  - apply IH.
Qed.

Lemma NoDup_key_order third Q :
  third ≠ "constant" → third ≠ "mean" → third ≠ "noise" →
  NoDup (key_order third Q).
Proof.
  intros H1 H2 H3. unfold key_order, py_range. apply NoDup_app. split_and!.
  - by apply NoDup_component_keys.
  - intros k (q & _ & Hin)%elem_of_concat_map Hk.
    apply elem_of_component_keys in Hin as [_ Hin].
    apply list_elem_of_singleton in Hk as ->. cbn [snd] in Hin.
    rewrite !elem_of_cons, elem_of_nil in Hin.
    destruct Hin as [[=] | [[=] | [Heq | []]]]. by apply H3.
  - apply NoDup_singleton.
Qed.

Lemma prefix_NoDup {X} (l1 l2 : list X) : l1 `prefix_of` l2 → NoDup l2 → NoDup l1.
Proof. intros [k ->] H. by apply NoDup_app in H as [? _]. Qed.

Lemma NoDup_keys_estimate_params G self method sm_init sm_method sm_maxiter plot :
  NoDup (keys (trace (estimate_params G self method sm_init sm_method sm_maxiter plot))).
Proof.
  destruct (follows_estimate_params G self method sm_init sm_method sm_maxiter plot)
    as (_ & Hp & _).
  eapply prefix_NoDup; [exact Hp |].
  apply NoDup_key_order; by case_bool_decide.
Qed.

(** A call made of the loop over the components and a final step does
    not roll back. *)
Lemma no_rollback_loop (r after : Run unit) (body : unit → nat → Run unit) Q :
  r = for_loop (py_range Q) body tt ≫= (λ _, after) →
  NoDup (keys (trace r)) →
  no_rollback r (body tt) Q.
Proof.
  intros Hr Hnd q e Hq Hbefore Hfail.
  assert (Hloop : r = (concat (map (λ y, trace (body tt y)) (seq 0 q))
                         ++ trace (body tt q), inl e)).
  { rewrite Hr. unfold py_range.
    replace (Z.to_nat Q) with (q + S (Z.to_nat Q - S q)) by lia.
    rewrite seq_app. cbn [seq plus].
    rewrite (for_loop_raises _ _ _ _ e); [done | | done].
    intros y Hy%elem_of_seq. apply Hbefore. lia. }
  split; [by rewrite Hloop |].
  intros q' k name v store Hq' Hin. unfold run_on. cbn [fst].
  apply replay_lookup_written; [done |].
  rewrite Hloop, trace_pair. apply elem_of_app. left.
  apply list_elem_of_In, in_concat. exists (trace (body tt q')).
  split; [| by apply list_elem_of_In].
  apply in_map_iff. exists q'. split; [done |]. apply in_seq. lia.
Qed.

(** C9. The writes of [estimate_params] are made in component order: the
    slots written are, in order, an initial segment of
    (0, constant), (0, mean), (0, scale), ..., (Q-1, scale), (Q, noise)
    (with variance for scale on the SM path), and the whole sequence, the
    noise last, when the call completes. Nothing is rolled back when the
    call raises: every write made is in the store after the call, and when
    the body of component [q] raises, the writes of all the components
    before [q] are in the store. *)
Theorem estimate_params_write_order G self method sm_init sm_method sm_maxiter plot :
  let r := estimate_params G self method sm_init sm_method sm_maxiter plot in
  let third := if bool_decide (method = "BNSE") then "scale" else "variance" in
  let est := get_bnse_estimation (dataset self) (Q self) in
  Forall is_write (trace r)
  ∧ keys (trace r) `prefix_of` key_order third (Q self)
  ∧ (outcome r = inr tt → keys (trace r) = key_order third (Q self))
  ∧ (∀ store q name v,
       EvSetParam q name v ∈ trace r → (run_on r store).1 !! (q, name) = Some v)
  ∧ (method = "BNSE" →
       no_rollback r (bnse_component G self est.1.1 est.1.2 est.2 tt) (Q self))
  ∧ (method = "SM" → ∀ fit,
       G !! "_estimate_from_sm" = Some (GEstimateFromSM fit) →
       no_rollback r
         (sm_component self
            (fit (dataset self) (Q self) sm_init sm_method sm_maxiter plot) tt)
         (Q self)).
Proof.
  intros r third est.
  pose proof (follows_estimate_params G self method sm_init sm_method sm_maxiter plot)
    as (Hw & Hp & Hc).
  pose proof (NoDup_keys_estimate_params G self method sm_init sm_method sm_maxiter plot)
    as Hnd.
  split_and!; [done | done | by apply Hc | | |].
  - intros store q name v Hin. by apply replay_lookup_written.
  - intros ->. eapply no_rollback_loop; [| exact Hnd].
    unfold r, estimate_params. rewrite bool_decide_eq_true_2 by done.
    subst est. by destruct (get_bnse_estimation _ _) as [[??]?].
  - intros -> fit Hfit. eapply no_rollback_loop; [| exact Hnd].
    unfold r, estimate_params. rewrite bool_decide_eq_false_2 by done.
    rewrite bool_decide_eq_true_2 by done.
    unfold _estimate_from_sm, load_global. rewrite Hfit.
    by rewrite !bind_ret.
Qed.

(** ** The BNSE path with numpy bound *)

Lemma map_const_seq {X} (x : X) a n : map (λ _, x) (seq a n) = replicate n x.
Proof.
  revert a. induction n as [|n IH]; intros a; [done |].
  cbn [seq map replicate]. by rewrite IH.
Qed.

Section fill_columns.
Variables (amplitudes : array3) (junk : nat → R) (q D M : nat).
Hypothesis Hchan : M ≤ dim0 amplitudes.
Hypothesis Hq : q < dim2 amplitudes.

Local Abbreviation filled := (filled_columns amplitudes junk q D M).

Lemma filled_0 : filled 0 = np_empty2 junk D M.
Proof. unfold filled_columns, np_empty2. by rewrite Nat.sub_0_r. Qed.

Lemma filled_all : filled M = amplitude_matrix amplitudes q D M.
Proof.
  unfold filled_columns, amplitude_matrix. f_equal.
  rewrite Nat.sub_diag. cbn [seq map].
  rewrite <- map_const_seq with (a := 0).
  apply map_ext. intros i. by rewrite app_nil_r.
Qed.

Lemma fill_column_step k :
  k < M →
  fill_column amplitudes q (filled k) k = mret (filled (S k)).
Proof.
  intros Hk. unfold fill_column, slice_i_k.
  rewrite bool_decide_eq_true_2 by lia. rewrite bind_ret.
  unfold set_column. rewrite bool_decide_eq_true_2 by done.
  f_equal. unfold filled_columns. cbn [ncols mrows]. do 2 f_equal.
  rewrite map_map. apply map_ext. intros i.
  replace (M - k) with (S (M - S k)) by lia.
  rewrite (seq_S k 0), map_app. cbn [seq map plus].
  rewrite insert_app_r_alt by (rewrite length_map, length_seq; lia).
  rewrite length_map, length_seq, Nat.sub_diag. cbn [insert list_insert].
  by rewrite <- app_assoc.
Qed.

Lemma fill_columns_from k n :
  k + n ≤ M →
  for_loop (seq k n) (fill_column amplitudes q) (filled k)
  = mret (filled (k + n)).
Proof.
  revert k. induction n as [|n IH]; intros k Hk.
  - by rewrite Nat.add_0_r.
  - cbn [seq]. rewrite for_loop_cons, fill_column_step, bind_ret by lia.
    rewrite IH by lia. do 2 f_equal. lia.
Qed.

(** The loop over the channels turns the fresh array into the matrix of
    mean amplitudes: no cell keeps its initial content. *)
Lemma fill_columns_all :
  for_loop (seq 0 M) (fill_column amplitudes q) (np_empty2 junk D M)
  = mret (amplitude_matrix amplitudes q D M).
Proof.
  rewrite <- filled_0, fill_columns_from by lia.
  change (0 + M) with M. by rewrite filled_all.
Qed.
End fill_columns.

Lemma slice_k_ok (a : array3) q :
  q < dim2 a →
  slice_k a q = mret {| rows := dim0 a; cols := dim1 a;
                        get2 := λ i j, get3 a i j q |}.
Proof. intros H. unfold slice_k. by rewrite bool_decide_eq_true_2. Qed.

Lemma map_replicate {X Y} (f : X → Y) n x :
  map f (replicate n x) = replicate n (f x).
Proof. induction n as [|n IH]; [done |]. cbn. by rewrite IH. Qed.

Lemma sqrt_normalised_amplitude_matrix amplitudes q D M :
  sqrt_normalised (amplitude_matrix amplitudes q D M)
  = spec_constant amplitudes q D M.
Proof.
  unfold sqrt_normalised, spec_constant.
  unfold amplitude_matrix at 2. cbn [mrows].
  by rewrite map_replicate, map_map.
Qed.

(** With [np] bound to numpy and arrays that cover the channels and the
    component, one pass of the BNSE loop makes the three writes of the
    specification. *)
Lemma bnse_component_numpy G junk self c cs amplitudes means variances q :
  G !! "np" = Some (GNumpy junk) →
  channels (dataset self) = c :: cs →
  len (dataset self) ≤ dim0 amplitudes →
  q < dim2 amplitudes → q < dim2 means → q < dim2 variances →
  bnse_component G self amplitudes means variances tt q
  = (spec_bnse_writes amplitudes means variances
       (input_dims c) (get_output_dims (dataset self)) q,
     inr tt).
Proof.
  intros Hnp Hch Hlen Hqa Hqm Hqv. unfold bnse_component.
  rewrite !(np_attr_numpy G junk) by done.
  rewrite bind_ret, (first_input_dims _ c cs Hch), bind_ret.
  unfold py_range. rewrite Nat2Z.id.
  unfold len, get_output_dims in *.
  rewrite fill_columns_all by done.
  rewrite !bind_ret, !slice_k_ok by done. rewrite !bind_ret.
  rewrite sqrt_normalised_amplitude_matrix.
  unfold set_param. rewrite !bind_emit. reflexivity.
Qed.

Lemma noise_item_step (done_ tail_ : list R) x c :
  noise_item (done_ ++ x :: tail_) (length done_, c)
  = mret ((done_ ++ [(np_var (Y c) / 30)%R]) ++ tail_).
Proof.
  unfold noise_item, set_item. cbn [fst snd].
  rewrite bool_decide_eq_true_2 by (rewrite length_app; cbn [length]; lia).
  rewrite insert_app_r_alt, Nat.sub_diag by lia. cbn [insert list_insert].
  by rewrite (cons_middle _ done_), (assoc_L (++)).
Qed.

(** The loop over the channels that fills the noise vector. *)
Lemma noise_items_from (done_ : list R) (rest : list channel) (tail_ : list R) :
  length tail_ = length rest →
  for_loop (imap (λ i c, (length done_ + i, c)) rest) noise_item (done_ ++ tail_)
  = mret (done_ ++ map (λ c, np_var (Y c) / 30)%R rest).
Proof.
  revert done_ tail_. induction rest as [|c rest IH]; intros done_ tail_ Hlen.
  - destruct tail_; [done | discriminate].
  - destruct tail_ as [|x tail_]; [discriminate |].
    cbn [imap]. rewrite for_loop_cons, Nat.add_0_r, noise_item_step, bind_ret.
    erewrite imap_ext; [rewrite IH |].
    + cbn [map]. by rewrite <- (assoc_L (++)).
    + cbn [length] in Hlen. lia.
    + intros i y _. cbn. rewrite length_app. cbn [length]. f_equal. lia.
Qed.

Lemma noise_items_all junk (chs : list channel) :
  for_loop (imap pair chs) noise_item (np_empty1 junk (length chs))
  = mret (map (λ c, np_var (Y c) / 30)%R chs).
Proof.
  apply (noise_items_from [] chs (np_empty1 junk (length chs))).
  unfold np_empty1. by rewrite length_map, length_seq.
Qed.

Lemma estimate_noise_numpy G junk self :
  G !! "np" = Some (GNumpy junk) →
  estimate_noise G self
  = ([EvSetParam (Q self) "noise" (PVec (spec_noise (dataset self)))], inr tt).
Proof.
  intros Hnp. unfold estimate_noise, get_output_dims.
  rewrite (np_attr_numpy G junk) by done.
  by rewrite bind_ret, noise_items_all, bind_ret.
Qed.

(** A loop all of whose passes complete. *)
Lemma for_loop_completes {X} (xs : list X) (body : unit → X → Run unit) W :
  (∀ x, x ∈ xs → body tt x = (W x, inr tt)) →
  for_loop xs body tt = (concat (map W xs), inr tt).
Proof.
  induction xs as [|x xs IH]; intros Hbody; [done |].
  rewrite for_loop_cons, (Hbody x), bind_done by by left.
  rewrite IH by (intros; apply Hbody; by right). reflexivity.
Qed.

(** The whole BNSE estimation with [np] bound to numpy: the writes of the
    specification for the components [0 .. Q-1], then the noise. *)
Lemma estimate_params_BNSE_numpy G junk self c cs sm_init sm_method sm_maxiter plot :
  let est := get_bnse_estimation (dataset self) (Q self) in
  G !! "np" = Some (GNumpy junk) →
  channels (dataset self) = c :: cs →
  len (dataset self) ≤ dim0 est.1.1 →
  Z.to_nat (Q self) ≤ dim2 est.1.1 →
  Z.to_nat (Q self) ≤ dim2 est.1.2 →
  Z.to_nat (Q self) ≤ dim2 est.2 →
  estimate_params G self "BNSE" sm_init sm_method sm_maxiter plot
  = (concat (map (spec_bnse_writes est.1.1 est.1.2 est.2 (input_dims c)
                    (get_output_dims (dataset self)))
                 (py_range (Q self)))
     ++ [EvSetParam (Q self) "noise" (PVec (spec_noise (dataset self)))],
     inr tt).
Proof.
  intros est Hnp Hch Hlen Ha Hm Hv. unfold estimate_params.
  rewrite bool_decide_eq_true_2 by done.
  subst est. destruct (get_bnse_estimation _ _) as [[amplitudes means] variances].
  cbn [fst snd] in *.
  rewrite (for_loop_completes _ _
             (spec_bnse_writes amplitudes means variances (input_dims c)
                (get_output_dims (dataset self)))).
  - rewrite bind_done, (estimate_noise_numpy G junk) by done. reflexivity.
  - intros q Hq%elem_of_seq.
    apply (bnse_component_numpy G junk self c cs); [done | done | done | lia..].
Qed.

(** ** The SM path with its collaborators bound *)

Lemma reshape_one_row v : reshape_rows v 1 = mret [v].
Proof.
  unfold reshape_rows. rewrite bool_decide_eq_true_2.
  - change (Z.to_nat 1) with 1. rewrite Nat.div_1_r. cbn [chunks].
    by rewrite firstn_all.
  - split; [lia | apply Z.mod_1_r].
Qed.

Lemma sm_component_fitted self params q p :
  Rq self = 1%Z → params !! q = Some p →
  sm_component self params tt q = (spec_sm_writes params q, inr tt).
Proof.
  intros HRq Hp. unfold sm_component, spec_sm_writes, py_index.
  rewrite Hp, HRq, !bind_ret, reshape_one_row, bind_ret.
  unfold set_param. rewrite !bind_emit. reflexivity.
Qed.

Lemma estimate_params_SM_fitted G junk fit self sm_init sm_method sm_maxiter plot :
  let params := fit (dataset self) (Q self) sm_init sm_method sm_maxiter plot in
  G !! "np" = Some (GNumpy junk) →
  G !! "_estimate_from_sm" = Some (GEstimateFromSM fit) →
  Rq self = 1%Z →
  Z.to_nat (Q self) ≤ length params →
  estimate_params G self "SM" sm_init sm_method sm_maxiter plot
  = (concat (map (spec_sm_writes params) (py_range (Q self)))
     ++ [EvSetParam (Q self) "noise" (PVec (spec_noise (dataset self)))],
     inr tt).
Proof.
  intros params Hnp Hfit HRq Hlen. unfold estimate_params.
  rewrite bool_decide_eq_false_2 by done. rewrite bool_decide_eq_true_2 by done.
  unfold _estimate_from_sm, load_global. rewrite Hfit, !bind_ret.
  fold params.
  rewrite (for_loop_completes _ _ (spec_sm_writes params)).
  - rewrite bind_done, (estimate_noise_numpy G junk) by done. reflexivity.
  - intros q Hq%elem_of_seq.
    destruct (lookup_lt_is_Some_2 params q) as [p Hp]; [lia |].
    by apply (sm_component_fitted self params q p).
Qed.

(** ** Real arithmetic of the reductions *)

Lemma Rsum_app l1 l2 : Rsum (l1 ++ l2) = (Rsum l1 + Rsum l2)%R.
Proof.
  induction l1 as [|x l1 IH]; cbn.
  - by rewrite Rplus_0_l.
  - unfold Rsum in IH. rewrite IH. by rewrite Rplus_assoc.
Qed.

Lemma Rsum_concat_replicate n l :
  Rsum (concat (replicate n l)) = (INR n * Rsum l)%R.
Proof.
  induction n as [|n IH].
  - cbn. by rewrite Rmult_0_l.
  - cbn [replicate concat]. rewrite Rsum_app, IH, S_INR. ring.
Qed.

Lemma length_concat_replicate {X} n (l : list X) :
  length (concat (replicate n l)) = n * length l.
Proof.
  induction n as [|n IH]; [done |].
  cbn [replicate concat]. rewrite length_app, IH. lia.
Qed.

(** The mean of a matrix of [n > 0] equal rows is the mean of the row. *)
Lemma np_mean_concat_replicate n l :
  0 < n → np_mean (concat (replicate n l)) = np_mean l.
Proof.
  intros Hn. unfold np_mean.
  rewrite Rsum_concat_replicate, length_concat_replicate, mult_INR.
  destruct (length l) as [|k] eqn:Hl.
  - cbn [INR]. rewrite Rmult_0_r. unfold Rdiv. rewrite Rinv_0. ring.
  - field. split; apply not_0_INR; lia.
Qed.

(** The global mean of the matrix of mean amplitudes is the mean over the
    channels of the per-channel mean amplitude. *)
Lemma mat_mean_amplitude_matrix amplitudes q D M :
  0 < D →
  mat_mean (amplitude_matrix amplitudes q D M)
  = np_mean (map (channel_amplitude amplitudes q) (seq 0 M)).
Proof.
  intros HD. unfold mat_mean, amplitude_matrix. cbn [mrows].
  by apply np_mean_concat_replicate.
Qed.

(** Entry by entry: row [d], column [channel] of the constant matrix is
    the square root of that channel's mean amplitude over the mean of the
    mean amplitudes of all the channels. *)
Lemma spec_constant_entry amplitudes q D M d channel :
  d < D → channel < M →
  spec_constant amplitudes q D M !! d ≫= (λ row, row !! channel)
  = Some (sqrt (channel_amplitude amplitudes q channel
                / np_mean (map (channel_amplitude amplitudes q) (seq 0 M)))).
Proof.
  intros Hd Hc. unfold spec_constant.
  rewrite lookup_replicate_2 by done. cbn [mbind option_bind].
  change (map ?f ?l) with (f <$> l) at 1.
  rewrite list_lookup_fmap, lookup_seq_lt by done. cbn [fmap option_fmap option_map plus].
  by rewrite mat_mean_amplitude_matrix by lia.
Qed.

(** The shapes of the values written: the constant is D x M, the mean and
    the scale have one entry per input dimension of the estimate, the noise
    one entry per channel. *)
Lemma spec_shapes amplitudes (a : array3) ds q D M :
  length (spec_constant amplitudes q D M) = D
  ∧ Forall (λ row, length row = M) (spec_constant amplitudes q D M)
  ∧ length (channel_average a q) = dim1 a
  ∧ length (spec_noise ds) = get_output_dims ds.
Proof.
  unfold spec_constant, channel_average, spec_noise, get_output_dims.
  split_and!.
  - apply length_replicate.
  - apply Forall_replicate. by rewrite length_map, length_seq.
  - by rewrite length_map, length_seq.
  - apply length_map.
Qed.

(** ** A concrete model *)

Lemma repaired_np junk : repaired_globals junk !! "np" = Some (GNumpy junk).
Proof. reflexivity. Qed.

Lemma repaired_estimate_from_sm junk :
  repaired_globals junk !! "_estimate_from_sm" = Some (GEstimateFromSM example_fit).
Proof. reflexivity. Qed.

(** The values of the specification on the concrete model: the mean
    amplitudes are 1 and 2, their global mean 3/2; the population variances
    of the outputs are 1 and 2 (the sample variances would be 2 and 3). *)
Ltac real_entries :=
  repeat match goal with
         | |- _ :: _ = _ :: _ => f_equal
         | |- sqrt _ = sqrt _ => f_equal
         end;
  try (cbn; field); try lra.

Lemma example_constant :
  spec_constant example_peaks 0 1 2 = [[sqrt (2 / 3); sqrt (4 / 3)]]%R.
Proof.
  unfold spec_constant, mat_mean, amplitude_matrix, channel_amplitude,
    np_mean, Rsum.
  cbn. real_entries.
Qed.

Lemma example_channel_average : channel_average example_peaks 0 = [3 / 2]%R.
Proof. unfold channel_average, np_mean, Rsum. cbn. real_entries. Qed.

Lemma example_population_variance :
  np_var [1; 3]%R = 1%R ∧ np_var [2; 2; 5]%R = 2%R.
Proof. unfold np_var, np_mean, Rsum. cbn. split; field. Qed.

Lemma example_noise : spec_noise example_dataset = [1 / 30; 2 / 30]%R.
Proof.
  unfold spec_noise, example_dataset. cbn [channels map Y].
  by destruct example_population_variance as [-> ->].
Qed.

Lemma example_axis0 : mean_axis0 example_fit_array = [1; 2]%R.
Proof. unfold mean_axis0, np_mean, Rsum. cbn. real_entries. Qed.

Lemma example_axis1 : mean_axis1 example_fit_array = [3 / 2]%R.
Proof. unfold mean_axis1, np_mean, Rsum. cbn. real_entries. Qed.

Lemma example_BNSE_repaired junk :
  estimate_params (repaired_globals junk) (example_model 1)
    "BNSE" "BNSE" "BFGS" 2000 false
  = ([EvSetParam 0 "constant" (PMat [[sqrt (2 / 3); sqrt (4 / 3)]]%R);
      EvSetParam 0 "mean" (PVec [3 / 2 * 2 * PI]%R);
      EvSetParam 0 "scale" (PVec [3 / 2 * 2]%R);
      EvSetParam 1 "noise" (PVec [1 / 30; 2 / 30]%R)],
     inr tt).
Proof.
  rewrite (estimate_params_BNSE_numpy _ junk (example_model 1)
             {| input_dims := 1; Y := [1; 3]%R |}
             [ {| input_dims := 1; Y := [2; 2; 5]%R |} ]);
    [| reflexivity | reflexivity | cbn; lia ..].
  transitivity
    (spec_bnse_writes example_peaks example_peaks example_peaks 1 2 0
     ++ [EvSetParam 1 "noise" (PVec (spec_noise example_dataset))],
     inr tt : exn + unit); [reflexivity |].
  unfold spec_bnse_writes.
  by rewrite example_constant, example_channel_average, example_noise.
Qed.

Lemma example_SM_repaired junk :
  estimate_params (repaired_globals junk) (example_model 1)
    "SM" "BNSE" "BFGS" 2000 false
  = ([EvSetParam 0 "constant" (PMat [[1; 2]]%R);
      EvSetParam 0 "mean" (PVec [3 / 2]%R);
      EvSetParam 0 "variance" (PVec [3 / 2 * 2]%R);
      EvSetParam 1 "noise" (PVec [1 / 30; 2 / 30]%R)],
     inr tt).
Proof.
  rewrite (estimate_params_SM_fitted _ junk example_fit (example_model 1));
    [| reflexivity | reflexivity | reflexivity | cbn; lia].
  transitivity
    ([EvSetParam 0 "constant" (PMat [mean_axis0 example_fit_array]);
      EvSetParam 0 "mean" (PVec (mean_axis1 example_fit_array));
      EvSetParam 0 "variance"
        (PVec (map (λ x, x * 2)%R (mean_axis1 example_fit_array)));
      EvSetParam 1 "noise" (PVec (spec_noise example_dataset))],
     inr tt : exn + unit); [reflexivity |].
  by rewrite example_axis0, example_axis1, example_noise.
Qed.

(** C1, on the code as written. For the model above with [Q = 1], the call
    with method 'BNSE' raises [NameError] for [np] at line 67 and writes
    nothing: the slots constant, mean and scale of block 0 stay unset. With
    [np] bound to numpy the same call makes the writes the claim
    describes: the constant [[sqrt((1)/(3/2)), sqrt((2)/(3/2))]], the mean
    (3/2) * 2 * pi and the scale (3/2) * 2. *)
Theorem estimate_params_BNSE_as_written :
  let r := estimate_params module_globals (example_model 1)
             "BNSE" "BNSE" "BFGS" 2000 false in
  r = ([], inl (NameError "np"))
  ∧ (∀ name, (run_on r ∅).1 !! (0%Z, name) = None)
  ∧ ∀ junk,
      let r' := estimate_params (repaired_globals junk) (example_model 1)
                  "BNSE" "BNSE" "BFGS" 2000 false in
      outcome r' = inr tt
      ∧ (run_on r' ∅).1 !! (0%Z, "constant")
        = Some (PMat [[sqrt (2 / 3); sqrt (4 / 3)]]%R)
      ∧ (run_on r' ∅).1 !! (0%Z, "mean") = Some (PVec [3 / 2 * 2 * PI]%R)
      ∧ (run_on r' ∅).1 !! (0%Z, "scale") = Some (PVec [3 / 2 * 2]%R).
Proof.
  split_and!; [reflexivity | done |].
  intros junk r'. subst r'. rewrite example_BNSE_repaired.
  unfold run_on. rewrite trace_pair, outcome_pair. cbn [fst].
  unfold replay. cbn [foldl apply_event].
  split_and!; [done | by simplify_map_eq ..].
Qed.

(** C2, on the code as written. For the same model the call with method
    'SM' raises [NameError] for [_estimate_from_sm] at line 79 and writes
    nothing. With that name and [np] bound, the call writes, for block 0,
    the weight [[1, 2]] averaged over axis 0 as the single row [1, 2], the
    mean averaged over axis 1, 3/2, and the scale averaged over axis 1 and
    doubled, (3/2) * 2. *)
Theorem estimate_params_SM_as_written :
  let r := estimate_params module_globals (example_model 1)
             "SM" "BNSE" "BFGS" 2000 false in
  r = ([], inl (NameError "_estimate_from_sm"))
  ∧ (∀ name, (run_on r ∅).1 !! (0%Z, name) = None)
  ∧ ∀ junk,
      let r' := estimate_params (repaired_globals junk) (example_model 1)
                  "SM" "BNSE" "BFGS" 2000 false in
      outcome r' = inr tt
      ∧ (run_on r' ∅).1 !! (0%Z, "constant") = Some (PMat [[1; 2]]%R)
      ∧ (run_on r' ∅).1 !! (0%Z, "mean") = Some (PVec [3 / 2]%R)
      ∧ (run_on r' ∅).1 !! (0%Z, "variance") = Some (PVec [3 / 2 * 2]%R).
Proof.
  split_and!; [reflexivity | done |].
  intros junk r'. subst r'. rewrite example_SM_repaired.
  unfold run_on. rewrite trace_pair, outcome_pair. cbn [fst].
  unfold replay. cbn [foldl apply_event].
  split_and!; [done | by simplify_map_eq ..].
Qed.

(** C3, on the code as written. For the same model neither method reaches
    line 90: both calls end with [NameError] and the noise slot at index
    [Q] stays unset. With the two names bound, both calls complete and
    leave at index [Q] the vector of the population variances of the
    channels' outputs over 30, one entry per channel: [1/30, 2/30]. *)
Theorem estimate_params_noise_as_written :
  let written method :=
    estimate_params module_globals (example_model 1)
      method "BNSE" "BFGS" 2000 false in
  let repaired junk method :=
    estimate_params (repaired_globals junk) (example_model 1)
      method "BNSE" "BFGS" 2000 false in
  let noise := PVec [1 / 30; 2 / 30]%R in
  outcome (written "BNSE") = inl (NameError "np")
  ∧ outcome (written "SM") = inl (NameError "_estimate_from_sm")
  ∧ (run_on (written "BNSE") ∅).1 !! (1%Z, "noise") = None
  ∧ (run_on (written "SM") ∅).1 !! (1%Z, "noise") = None
  ∧ ∀ junk,
      outcome (repaired junk "BNSE") = inr tt
      ∧ (run_on (repaired junk "BNSE") ∅).1 !! (1%Z, "noise") = Some noise
      ∧ outcome (repaired junk "SM") = inr tt
      ∧ (run_on (repaired junk "SM") ∅).1 !! (1%Z, "noise") = Some noise.
Proof.
  cbv zeta. split_and!; [done.. |]. intros junk.
  rewrite example_BNSE_repaired, example_SM_repaired.
  unfold run_on. rewrite !trace_pair, !outcome_pair. cbn [fst].
  split_and!; [done | | done |];
    apply (replay_last_write [_; _; _] ∅ 1 "noise").
Qed.

(** With numpy bound, the model above with [Q = 2] has only one peak to
    offer: component 0 is written, the body of component 1 raises
    [IndexError] on [amplitudes[channel, :, 1]], and the constant of
    component 0 is still in the store after the failed call. *)
Lemma estimate_params_write_order_witness :
  let r := estimate_params (repaired_globals (λ _, 0%R)) (example_model 2)
             "BNSE" "BNSE" "BFGS" 2000 false in
  outcome r = inl IndexError
  ∧ (run_on r ∅).1 !! (0%Z, "constant")
    = Some (PMat (spec_constant example_peaks 0 1 2)).
Proof.
  destruct (estimate_params_write_order (repaired_globals (λ _, 0%R))
              (example_model 2) "BNSE" "BNSE" "BFGS" 2000 false)
    as (_ & _ & _ & _ & Hnr & _).
  destruct (Hnr eq_refl 1 IndexError) as [Hout Hkept].
  - cbn; lia.
  - intros q' Hq'. assert (q' = 0) as -> by lia.
    cbn [fst snd get_bnse_estimation dataset example_model example_dataset].
    rewrite (bnse_component_numpy _ (λ _, 0%R) (example_model 2)
               {| input_dims := 1; Y := [1; 3]%R |}
               [ {| input_dims := 1; Y := [2; 2; 5]%R |} ]);
      first [reflexivity | cbn; lia].
  - reflexivity.
  - split; [exact Hout |].
    apply (Hkept 0); [lia |].
    cbn [fst snd get_bnse_estimation dataset example_model example_dataset].
    rewrite (bnse_component_numpy _ (λ _, 0%R) (example_model 2)
               {| input_dims := 1; Y := [1; 3]%R |}
               [ {| input_dims := 1; Y := [2; 2; 5]%R |} ]);
      [| reflexivity | reflexivity | cbn; lia ..].
    rewrite trace_pair. by left.
Defined.

(** ** Model assembly under any global namespace *)

Lemma with_context_run {A} (c : context) (body : Run A) :
  with_context c body = (EvEnter c :: trace body ++ [EvExit c], outcome body).
Proof.
  unfold with_context, finally. rewrite bind_emit.
  destruct body as [t [e|a]]; rewrite bind_done; unfold emit;
    rewrite bind_done; cbn; by rewrite ?app_nil_r.
Qed.

(** The call of a block constructor either raises without effect or builds
    the block for the first channel's input dimensionality. *)
Lemma new_SpectralMixtureLMC_cases G ds Rq :
  (∃ e, new_SpectralMixtureLMC G ds Rq = ([], inl e)
        ∧ (channels ds = []
           ∨ G !! "SpectralMixtureLMC" ≠ Some GSpectralMixtureLMC))
  ∨ (∃ c cs, channels ds = c :: cs
       ∧ G !! "SpectralMixtureLMC" = Some GSpectralMixtureLMC
       ∧ new_SpectralMixtureLMC G ds Rq
         = ([EvNewSpectralMixtureLMC (input_dims c) (get_output_dims ds) Rq],
            inr (SpectralMixtureLMC (input_dims c) (get_output_dims ds) Rq))).
Proof.
  unfold new_SpectralMixtureLMC, load_global, py_index, get_input_dims.
  destruct (G !! "SpectralMixtureLMC") as [o|] eqn:HG.
  - rewrite bind_ret. destruct (channels ds) as [|c cs] eqn:Hch.
    + left. eexists. split; [reflexivity | by left].
    + cbn [map lookup list_lookup]. rewrite bind_ret.
      destruct o; try (left; eexists; split; [reflexivity | by right]).
      right. exists c, cs. by rewrite bind_emit.
  - left. eexists. split; [reflexivity | by right].
Qed.

Lemma new_Noise_cases G ds c cs :
  channels ds = c :: cs →
  (∃ e, new_Noise G ds = ([], inl e) ∧ G !! "Noise" ≠ Some GNoise)
  ∨ (G !! "Noise" = Some GNoise
     ∧ new_Noise G ds
       = ([EvNewNoise (input_dims c) (get_output_dims ds)],
          inr (Noise (input_dims c) (get_output_dims ds)))).
Proof.
  intros Hch. unfold new_Noise, load_global, py_index, get_input_dims.
  rewrite Hch. cbn [map lookup list_lookup].
  destruct (G !! "Noise") as [o|] eqn:HG.
  - rewrite !bind_ret.
    destruct o; try (left; eexists; split; [reflexivity | done]).
    right. by rewrite bind_emit.
  - left. eexists. split; [reflexivity | done].
Qed.

Section assembly_loop.
Variables (G : gmap string gobj) (ds : DataSet) (Rq : Z).
Variables (ev : event) (blk : kernel).
Hypothesis Hnew : new_SpectralMixtureLMC G ds Rq = ([ev], inr blk).

Lemma add_block_first_gen kernel_set :
  add_block G ds Rq kernel_set 0 = ([ev], inr (Some blk)).
Proof. unfold add_block. by rewrite Hnew, bind_done. Qed.

Lemma add_block_next_gen k q :
  0 < q → add_block G ds Rq (Some k) q = ([ev], inr (Some (KAdd k blk))).
Proof.
  intros Hq. unfold add_block. rewrite Hnew, bind_done.
  by rewrite bool_decide_eq_false_2 by lia.
Qed.

Lemma add_block_loop_tail_gen n a k :
  0 < a →
  for_loop (seq a n) (add_block G ds Rq) (Some k)
  = (replicate n ev, inr (Some (add_blocks k blk n))).
Proof.
  revert a k. induction n as [|n IH]; intros a k Ha; [done |].
  simpl seq. rewrite for_loop_cons, add_block_next_gen, bind_done by done.
  by rewrite IH by lia.
Qed.

Lemma add_block_loop_gen n :
  for_loop (seq 0 (S n)) (add_block G ds Rq) None
  = (replicate (S n) ev, inr (Some (add_blocks blk blk n))).
Proof.
  simpl seq. rewrite for_loop_cons, add_block_first_gen, bind_done.
  by rewrite add_block_loop_tail_gen by lia.
Qed.
End assembly_loop.

Lemma add_block_loop_raises G ds Rq e n :
  new_SpectralMixtureLMC G ds Rq = ([], inl e) →
  for_loop (seq 0 (S n)) (add_block G ds Rq) None = ([], inl e).
Proof.
  intros Hnew. simpl seq. rewrite for_loop_cons. unfold add_block.
  by rewrite Hnew.
Qed.

(** Past the check of [Rq] and the call of the base class, the run of the
    constructor is the run of its body between the two contexts. *)
Lemma init_unfold G ds Q name likelihood variational sparse like_params :
  G !! "model" = Some GModel →
  __init__ G ds Q 1 name likelihood variational sparse like_params
  = (init_prefix name
     ++ trace (init_body G ds Q 1 name likelihood variational sparse like_params)
     ++ init_suffix,
     outcome (init_body G ds Q 1 name likelihood variational sparse like_params)).
Proof.
  intros Hm. unfold __init__.
  rewrite bool_decide_eq_false_2 by (intros H; by apply H).
  rewrite bind_ret. unfold base_init, load_global. rewrite Hm, bind_ret, bind_emit.
  fold (init_body G ds Q 1 name likelihood variational sparse like_params).
  rewrite !with_context_run, !trace_pair, !outcome_pair.
  unfold init_prefix, init_suffix. cbn [app]. by rewrite <- app_assoc.
Qed.

Lemma init_raises_early G ds Q Rq name likelihood variational sparse like_params :
  Rq ≠ 1%Z ∨ G !! "model" ≠ Some GModel →
  ∃ e, __init__ G ds Q Rq name likelihood variational sparse like_params
       = ([], inl e).
Proof.
  intros H. unfold __init__. case_bool_decide as HRq.
  - eexists. reflexivity.
  - rewrite bind_ret. unfold base_init, load_global.
    destruct H as [H | H]; [by destruct HRq |].
    destruct (G !! "model") as [[]|]; try (eexists; reflexivity).
    by destruct H.
Qed.

(** The body without a pass of the loop. *)
Lemma init_body_no_pass G ds Q Rq name likelihood variational sparse like_params :
  (Q ≤ 0)%Z →
  init_body G ds Q Rq name likelihood variational sparse like_params
  = ([], inl (UnboundLocalError "kernel_set")).
Proof.
  intros HQ. unfold init_body, py_range.
  replace (Z.to_nat Q) with 0 by lia. cbn [seq].
  by rewrite for_loop_nil, bind_ret.
Qed.

(** The body when the first block cannot be built. *)
Lemma init_body_no_block G ds Q Rq name likelihood variational sparse like_params e :
  (1 ≤ Q)%Z →
  new_SpectralMixtureLMC G ds Rq = ([], inl e) →
  init_body G ds Q Rq name likelihood variational sparse like_params
  = ([], inl e).
Proof.
  intros HQ Hnew. unfold init_body, py_range.
  destruct (Z.to_nat Q) as [|n] eqn:Hn; [lia |].
  by rewrite (add_block_loop_raises G ds Rq e n Hnew).
Qed.

(** The body when the blocks are built: the noise block decides. *)
Lemma init_body_blocks G ds Q Rq name likelihood variational sparse like_params
    ev blk (noise : Run kernel) :
  (1 ≤ Q)%Z →
  new_SpectralMixtureLMC G ds Rq = ([ev], inr blk) →
  new_Noise G ds = noise →
  init_body G ds Q Rq name likelihood variational sparse like_params
  = match noise with
    | (t, inl e) => (replicate (Z.to_nat Q) ev ++ t, inl e)
    | (t, inr n) =>
        let ks := KAdd (add_blocks blk blk (Z.to_nat Q - 1)) n in
        (replicate (Z.to_nat Q) ev ++ t
         ++ [EvBuild ks likelihood variational sparse like_params],
         inr {| name := name; dataset := ds; Q := Q; Rq := Rq; kernel_of := ks |})
    end.
Proof.
  intros HQ Hnew Hnoise. unfold init_body, py_range.
  destruct (Z.to_nat Q) as [|n] eqn:Hn; [lia |].
  rewrite (add_block_loop_gen G ds Rq ev blk Hnew n), bind_done.
  cbn [load_local]. rewrite bind_ret, Hnoise.
  replace (S n - 1) with n by lia.
  destruct noise as [t [e|k]].
  - by rewrite bind_failed.
  - rewrite bind_done, bind_emit. cbn. reflexivity.
Qed.

(** The run of a construction that succeeds. *)
Lemma init_run_ok G ds c cs Q name likelihood variational sparse like_params :
  G !! "model" = Some GModel →
  G !! "SpectralMixtureLMC" = Some GSpectralMixtureLMC →
  G !! "Noise" = Some GNoise →
  channels ds = c :: cs → (1 ≤ Q)%Z →
  let D := input_dims c in
  let M := get_output_dims ds in
  let blk := SpectralMixtureLMC D M 1 in
  let ks := KAdd (add_blocks blk blk (Z.to_nat Q - 1)) (Noise D M) in
  __init__ G ds Q 1 name likelihood variational sparse like_params
  = (init_prefix name
     ++ (replicate (Z.to_nat Q) (EvNewSpectralMixtureLMC D M 1)
         ++ [EvNewNoise D M]
         ++ [EvBuild ks likelihood variational sparse like_params])
     ++ init_suffix,
     inr {| name := name; dataset := ds; Q := Q; Rq := 1; kernel_of := ks |}).
Proof.
  intros Hm Hsm Hn Hch HQ D M blk ks. rewrite init_unfold by done.
  destruct (new_SpectralMixtureLMC_cases G ds 1)
    as [(e & _ & [Hno | Hno]) | (c' & cs' & Hch' & _ & Hnew)];
    [congruence | congruence |].
  destruct (new_Noise_cases G ds c cs Hch) as [(e & _ & Hno) | [_ Hnoise]];
    [congruence |].
  assert (c' = c) as -> by congruence.
  by rewrite (init_body_blocks _ _ _ _ _ _ _ _ _ _ _ _ HQ Hnew Hnoise).
Qed.

(** X1. Construction succeeds exactly when [Rq = 1], [Q >= 1], the dataset
    has at least one channel and the three names the constructor reads are
    bound to the base class and the two kernel classes; in every other case
    it ends with an exception. *)
Theorem init_succeeds_iff G ds Q Rq name likelihood variational sparse like_params :
  (∃ self, outcome (__init__ G ds Q Rq name likelihood variational sparse like_params)
           = inr self)
  ↔ Rq = 1%Z ∧ (1 ≤ Q)%Z ∧ channels ds ≠ []
    ∧ G !! "model" = Some GModel
    ∧ G !! "SpectralMixtureLMC" = Some GSpectralMixtureLMC
    ∧ G !! "Noise" = Some GNoise.
Proof.
  split.
  - intros [self Hok].
    destruct (decide (Rq = 1%Z)) as [-> | HRq].
    2: { destruct (init_raises_early G ds Q Rq name likelihood variational
                     sparse like_params (or_introl HRq)) as [e He].
         by rewrite He in Hok. }
    assert (Hm : G !! "model" = Some GModel).
    { destruct (G !! "model") as [[]|] eqn:Hm; try done;
        (edestruct (init_raises_early G ds Q 1 name likelihood variational
                      sparse like_params) as [e He];
         [right; rewrite Hm; discriminate | by rewrite He in Hok]). }
    rewrite init_unfold, outcome_pair in Hok by done.
    destruct (decide (Q ≤ 0)%Z) as [HQ | HQ].
    { by rewrite init_body_no_pass in Hok. }
    assert (1 ≤ Q)%Z as HQ1 by lia.
    destruct (new_SpectralMixtureLMC_cases G ds 1)
      as [(e & Hnew & _) | (c & cs & Hch & Hsm & Hnew)].
    { by rewrite (init_body_no_block _ _ _ _ _ _ _ _ _ e HQ1 Hnew) in Hok. }
    destruct (new_Noise_cases G ds c cs Hch) as [(e & Hnoise & _) | [Hn _]].
    { by rewrite (init_body_blocks _ _ _ _ _ _ _ _ _ _ _ _ HQ1 Hnew Hnoise) in Hok. }
    split_and!; try done. by rewrite Hch.
  - intros (-> & HQ & Hch & Hm & Hsm & Hn).
    destruct (channels ds) as [|c cs] eqn:Hch'; [done |].
    eexists. by rewrite (init_run_ok G ds c cs Q).
Qed.

(** X2. In a global namespace where [model], [SpectralMixtureLMC] and
    [Noise] are each unbound or bound to the class the module imports under
    that name, and whatever the arguments, the effects of the constructor
    are either none (it raised before entering a context) or the base-class
    initialisation, the two contexts entered, the blocks built, and the two
    contexts left in reverse order, also when the body raised. The spectral
    blocks are all or none of the [Q]; the noise block and the build, in
    this order, are there exactly when the construction succeeds; no
    parameter is ever written. *)
Theorem init_trace_shape G ds Q Rq name likelihood variational sparse like_params :
  bound_as_imported G →
  let r := __init__ G ds Q Rq name likelihood variational sparse like_params in
  (∃ e, r = ([], inl e))
  ∨ ∃ n D M,
      (n = 0 ∨ n = Z.to_nat Q)
      ∧ ((∃ e, r = (init_prefix name
                    ++ replicate n (EvNewSpectralMixtureLMC D M Rq)
                    ++ init_suffix, inl e))
         ∨ (∃ self,
              n = Z.to_nat Q ∧ 0 < n
              ∧ r = (init_prefix name
                     ++ (replicate n (EvNewSpectralMixtureLMC D M Rq)
                         ++ [EvNewNoise D M]
                         ++ [EvBuild (kernel_of self) likelihood variational
                               sparse like_params])
                     ++ init_suffix, inr self))).
Proof.
  intros _ r. subst r.
  destruct (decide (Rq = 1%Z)) as [-> | HRq];
    [| left; apply init_raises_early; by left].
  destruct (G !! "model") as [[]|] eqn:Hm;
    try (left; apply init_raises_early; right; rewrite Hm; discriminate).
  right. rewrite init_unfold by done.
  destruct (decide (Q ≤ 0)%Z) as [HQ | HQ].
  { exists 0, 0, 0. split; [by left |]. left. eexists.
    by rewrite init_body_no_pass. }
  assert (1 ≤ Q)%Z as HQ1 by lia.
  destruct (new_SpectralMixtureLMC_cases G ds 1)
    as [(e & Hnew & _) | (c & cs & Hch & Hsm & Hnew)].
  { exists 0, 0, 0. split; [by left |]. left. eexists.
    by rewrite (init_body_no_block _ _ _ _ _ _ _ _ _ e HQ1 Hnew). }
  exists (Z.to_nat Q), (input_dims c), (get_output_dims ds).
  split; [by right |].
  destruct (new_Noise_cases G ds c cs Hch) as [(e & Hnoise & _) | [Hn Hnoise]].
  - left. eexists.
    rewrite (init_body_blocks _ _ _ _ _ _ _ _ _ _ _ _ HQ1 Hnew Hnoise).
    by rewrite trace_pair, outcome_pair, app_nil_r.
  - right.
    exists {| name := name; dataset := ds; Q := Q; Rq := 1;
              kernel_of :=
                KAdd (add_blocks
                        (SpectralMixtureLMC (input_dims c) (get_output_dims ds) 1)
                        (SpectralMixtureLMC (input_dims c) (get_output_dims ds) 1)
                        (Z.to_nat Q - 1))
                     (Noise (input_dims c) (get_output_dims ds)) |}.
    split_and!; [done | lia |].
    rewrite (init_body_blocks _ _ _ _ _ _ _ _ _ _ _ _ HQ1 Hnew Hnoise).
    cbv zeta. rewrite trace_pair, outcome_pair. reflexivity.
Qed.

Lemma init_trace_shape_witness :
  let r := __init__ module_globals example_dataset 2 1 "SM-LMC" None false false
             (PyRef 0) in
  (∃ e, r = ([], inl e))
  ∨ ∃ n D M,
      (n = 0 ∨ n = Z.to_nat 2)
      ∧ ((∃ e, r = (init_prefix "SM-LMC"
                    ++ replicate n (EvNewSpectralMixtureLMC D M 1)
                    ++ init_suffix, inl e))
         ∨ (∃ self,
              n = Z.to_nat 2 ∧ 0 < n
              ∧ r = (init_prefix "SM-LMC"
                     ++ (replicate n (EvNewSpectralMixtureLMC D M 1)
                         ++ [EvNewNoise D M]
                         ++ [EvBuild (kernel_of self) None false false (PyRef 0)])
                     ++ init_suffix, inr self))).
Proof.
  apply (init_trace_shape module_globals example_dataset 2 1 "SM-LMC" None false
           false (PyRef 0)).
  unfold bound_as_imported. split_and!; by right.
Defined.

(** X3. A negative [Q] behaves like [Q = 0]: with [Rq = 1] and the base
    class bound, the loop has no pass, no block is built, and the
    constructor leaves both contexts with [UnboundLocalError] for
    [kernel_set]. *)
Theorem init_nonpositive_Q G ds Q name likelihood variational sparse like_params :
  G !! "model" = Some GModel → (Q ≤ 0)%Z →
  __init__ G ds Q 1 name likelihood variational sparse like_params
  = (init_prefix name ++ init_suffix, inl (UnboundLocalError "kernel_set")).
Proof.
  intros Hm HQ. rewrite init_unfold by done.
  by rewrite init_body_no_pass.
Qed.

Lemma init_nonpositive_Q_witness :
  __init__ module_globals example_dataset (-3) 1 "SM-LMC" None false false (PyRef 0)
  = ([EvBaseInit "SM-LMC"; EvEnter GraphDefault; EvEnter SessionDefault;
      EvExit SessionDefault; EvExit GraphDefault],
     inl (UnboundLocalError "kernel_set")).
Proof.
  apply (init_nonpositive_Q module_globals example_dataset (-3));
    [reflexivity | lia].
Defined.



(** ** Slots touched and slots left by an estimation *)

Lemma elem_of_prefix {X} (l1 l2 : list X) x : l1 `prefix_of` l2 → x ∈ l1 → x ∈ l2.
Proof. intros [k ->] H. apply elem_of_app. by left. Qed.

Lemma elem_of_keys (t : list event) k :
  k ∈ keys t → ∃ v, EvSetParam k.1 k.2 v ∈ t.
Proof.
  unfold keys. intros (ev & Hev & Hk)%list_elem_of_omap.
  destruct ev; try discriminate. injection Hk as <-. by eexists.
Qed.



(** X5. An estimation never touches a slot outside its own write order:
    whatever the outcome, every slot other than constant, mean and scale
    (on the SM path: variance) of the components below [Q] and the noise at
    index [Q] holds after the call what it held before. In particular a
    BNSE call leaves every variance slot, and an SM call every scale slot,
    as it was. *)
Theorem estimate_params_frame G self method sm_init sm_method sm_maxiter plot store k :
  let r := estimate_params G self method sm_init sm_method sm_maxiter plot in
  k ∉ key_order (if bool_decide (method = "BNSE") then "scale" else "variance")
                (Q self) →
  (run_on r store).1 !! k = store !! k.
Proof.
  intros r Hk. unfold run_on. cbn [fst]. apply replay_lookup_other.
  intros Hin. apply Hk.
  destruct (follows_estimate_params G self method sm_init sm_method sm_maxiter plot)
    as (_ & Hp & _).
  by eapply elem_of_prefix.
Qed.

Lemma estimate_params_frame_witness :
  (run_on (estimate_params (repaired_globals (λ _, 0%R)) (example_model 1)
             "BNSE" "BNSE" "BFGS" 2000 false)
          {[ (0%Z, "variance") := PVec [7%R] ]}).1 !! (0%Z, "variance")
  = Some (PVec [7%R]).
Proof.
  rewrite (estimate_params_frame (repaired_globals (λ _, 0%R)) (example_model 1)
             "BNSE" "BNSE" "BFGS" 2000 false).
  - apply lookup_singleton_eq.
  - change (key_order _ _) with
      [(0%Z, "constant"); (0%Z, "mean"); (0%Z, "scale"); (1%Z, "noise")].
    rewrite !elem_of_cons, elem_of_nil.
    intros [[=] | [[=] | [[=] | [[=] | []]]]].
Defined.

(** X6. When an estimation completes, every slot of its write order is
    set in the store afterwards, whatever the store held before: constant,
    mean and scale (on the SM path: variance) of each component below [Q],
    and the noise at index [Q]. *)
Theorem estimate_params_populates G self method sm_init sm_method sm_maxiter plot store :
  let r := estimate_params G self method sm_init sm_method sm_maxiter plot in
  outcome r = inr tt →
  Forall (λ k, is_Some ((run_on r store).1 !! k))
         (key_order (if bool_decide (method = "BNSE") then "scale" else "variance")
                    (Q self)).
Proof.
  intros r Hok. apply Forall_forall. intros k Hk.
  destruct (follows_estimate_params G self method sm_init sm_method sm_maxiter plot)
    as (_ & _ & Hc).
  rewrite <- (Hc tt Hok) in Hk.
  destruct (elem_of_keys _ _ Hk) as [v Hv]. exists v.
  destruct k as [q name]. unfold run_on. cbn [fst snd] in *.
  apply replay_lookup_written; [| done].
  apply NoDup_keys_estimate_params.
Qed.

Lemma estimate_params_populates_witness :
  Forall (λ k, is_Some
            ((run_on (estimate_params (repaired_globals (λ _, 0%R)) (example_model 1)
                        "SM" "BNSE" "BFGS" 2000 false) ∅).1 !! k))
         [(0%Z, "constant"); (0%Z, "mean"); (0%Z, "variance"); (1%Z, "noise")].
Proof.
  apply (estimate_params_populates (repaired_globals (λ _, 0%R)) (example_model 1)
           "SM" "BNSE" "BFGS" 2000 false ∅).
  by rewrite example_SM_repaired.
Defined.

(** ** Estimates that do not cover the components or the channels *)

Lemma slice_k_out (a : array3) q :
  dim2 a ≤ q → slice_k a q = raise IndexError.
Proof. intros H. unfold slice_k. by rewrite bool_decide_eq_false_2 by lia. Qed.

Lemma fill_column_out amplitudes q constant channel :
  dim2 amplitudes ≤ q →
  fill_column amplitudes q constant channel = raise IndexError.
Proof.
  intros H. unfold fill_column, slice_i_k.
  by rewrite bool_decide_eq_false_2 by lia.
Qed.

(** A component beyond the peaks of one of the three arrays: the pass
    raises [IndexError] before its first write. *)
Lemma bnse_component_out_of_range G junk self c cs amplitudes means variances q :
  G !! "np" = Some (GNumpy junk) →
  channels (dataset self) = c :: cs →
  len (dataset self) ≤ dim0 amplitudes →
  dim2 amplitudes ≤ q ∨ dim2 means ≤ q ∨ dim2 variances ≤ q →
  bnse_component G self amplitudes means variances tt q = ([], inl IndexError).
Proof.
  intros Hnp Hch Hlen Hq. unfold bnse_component.
  rewrite !(np_attr_numpy G junk) by done.
  rewrite bind_ret, (first_input_dims _ c cs Hch), bind_ret.
  unfold py_range. rewrite Nat2Z.id.
  destruct (decide (q < dim2 amplitudes)) as [Ha | Ha].
  - unfold len, get_output_dims in *.
    rewrite fill_columns_all, !bind_ret by done.
    destruct (decide (q < dim2 means)) as [Hm | Hm].
    + rewrite (slice_k_ok means) by done. rewrite bind_ret.
      by rewrite (slice_k_out variances) by lia.
    + by rewrite (slice_k_out means) by lia.
  - unfold len. rewrite Hch. cbn [length seq].
    by rewrite for_loop_cons, fill_column_out by lia.
Qed.

(** X7. With numpy bound, a dataset with at least one channel and an
    amplitudes array that covers every channel of the dataset: when the PSD
    estimate offers [P] peaks, fewer than [Q] (the smallest last dimension
    of the three arrays), a BNSE estimation writes the components below
    [P], raises [IndexError] on component [P] before writing any of its
    slots, and never writes the noise. *)
Theorem estimate_params_BNSE_too_few_peaks G junk self c cs
    sm_init sm_method sm_maxiter plot :
  let est := get_bnse_estimation (dataset self) (Q self) in
  let P := dim2 est.1.1 `min` (dim2 est.1.2 `min` dim2 est.2) in
  G !! "np" = Some (GNumpy junk) →
  channels (dataset self) = c :: cs →
  len (dataset self) ≤ dim0 est.1.1 →
  P < Z.to_nat (Q self) →
  estimate_params G self "BNSE" sm_init sm_method sm_maxiter plot
  = (concat (map (spec_bnse_writes est.1.1 est.1.2 est.2 (input_dims c)
                    (get_output_dims (dataset self)))
                 (seq 0 P)),
     inl IndexError).
Proof.
  intros est P Hnp Hch Hlen HP. unfold estimate_params.
  rewrite bool_decide_eq_true_2 by done.
  subst est P. destruct (get_bnse_estimation _ _) as [[amplitudes means] variances].
  cbn [fst snd] in *.
  set (P := dim2 amplitudes `min` (dim2 means `min` dim2 variances)) in *.
  unfold py_range.
  replace (Z.to_nat (Q self)) with (P + S (Z.to_nat (Q self) - S P)) by lia.
  rewrite seq_app. cbn [seq plus].
  rewrite (for_loop_raises _ _ _ _ IndexError).
  - rewrite bind_failed.
    rewrite (bnse_component_out_of_range G junk self c cs) by (done || lia).
    rewrite app_nil_r. f_equal. f_equal. apply map_ext_in.
    intros q Hq%in_seq.
    rewrite (bnse_component_numpy G junk self c cs) by (done || lia). done.
  - intros q Hq%elem_of_seq.
    by rewrite (bnse_component_numpy G junk self c cs) by (done || lia).
  - by rewrite (bnse_component_out_of_range G junk self c cs) by (done || lia).
Qed.

Lemma estimate_params_BNSE_too_few_peaks_witness :
  estimate_params (repaired_globals (λ _, 0%R)) (example_model 3)
    "BNSE" "BNSE" "BFGS" 2000 false
  = (spec_bnse_writes example_peaks example_peaks example_peaks 1 2 0,
     inl IndexError).
Proof.
  rewrite (estimate_params_BNSE_too_few_peaks (repaired_globals (λ _, 0%R)) (λ _, 0%R)
             (example_model 3)
             {| input_dims := 1; Y := [1; 3]%R |}
             [ {| input_dims := 1; Y := [2; 2; 5]%R |} ]);
    first [reflexivity | cbn; lia].
Defined.

(** X8. When the independent fit returns fewer than [Q] components, an SM
    estimation writes the components it has a fit for, raises [IndexError]
    on the first missing one before writing any of its slots, and never
    writes the noise. *)
Theorem estimate_params_SM_too_few_fits G fit self sm_init sm_method sm_maxiter plot :
  let params := fit (dataset self) (Q self) sm_init sm_method sm_maxiter plot in
  G !! "_estimate_from_sm" = Some (GEstimateFromSM fit) →
  Rq self = 1%Z →
  length params < Z.to_nat (Q self) →
  estimate_params G self "SM" sm_init sm_method sm_maxiter plot
  = (concat (map (spec_sm_writes params) (seq 0 (length params))),
     inl IndexError).
Proof.
  intros params Hfit HRq Hlen. unfold estimate_params.
  rewrite bool_decide_eq_false_2 by done. rewrite bool_decide_eq_true_2 by done.
  unfold _estimate_from_sm, load_global. rewrite Hfit, !bind_ret. fold params.
  assert (Hmiss : sm_component self params tt (length params) = ([], inl IndexError)).
  { unfold sm_component, py_index. by rewrite lookup_ge_None_2 by lia. }
  assert (Hfits : ∀ q, q < length params →
            sm_component self params tt q = (spec_sm_writes params q, inr tt)).
  { intros q Hq. destruct (lookup_lt_is_Some_2 params q Hq) as [p Hp].
    by apply (sm_component_fitted self params q p). }
  unfold py_range.
  replace (Z.to_nat (Q self))
    with (length params + S (Z.to_nat (Q self) - S (length params))) by lia.
  rewrite seq_app. cbn [seq plus].
  rewrite (for_loop_raises _ _ _ _ IndexError).
  - rewrite bind_failed, Hmiss, app_nil_r. f_equal. f_equal.
    apply map_ext_in. intros q Hq%in_seq. rewrite Hfits by lia. done.
  - intros q Hq%elem_of_seq. rewrite Hfits by lia. done.
  - by rewrite Hmiss.
Qed.

Lemma estimate_params_SM_too_few_fits_witness :
  estimate_params (repaired_globals (λ _, 0%R)) (example_model 2)
    "SM" "BNSE" "BFGS" 2000 false
  = (spec_sm_writes (example_fit example_dataset 2 "BNSE" "BFGS" 2000 false) 0,
     inl IndexError).
Proof.
  rewrite (estimate_params_SM_too_few_fits (repaired_globals (λ _, 0%R)) example_fit
             (example_model 2));
    first [reflexivity | cbn; lia].
Defined.

(** X9. On a dataset without channels a BNSE estimation with [Q >= 1] and
    numpy bound raises [IndexError] at [get_input_dims()[0]] (line 67)
    before any write, whatever the PSD estimate holds. *)
Theorem estimate_params_BNSE_no_channel G junk self sm_init sm_method sm_maxiter plot :
  G !! "np" = Some (GNumpy junk) →
  channels (dataset self) = [] → (1 ≤ Q self)%Z →
  estimate_params G self "BNSE" sm_init sm_method sm_maxiter plot
  = ([], inl IndexError).
Proof.
  intros Hnp Hch HQ. unfold estimate_params.
  rewrite bool_decide_eq_true_2 by done.
  destruct (get_bnse_estimation _ _) as [[amplitudes means] variances].
  unfold py_range. destruct (Z.to_nat (Q self)) as [|n] eqn:Hn; [lia |].
  cbn [seq]. rewrite for_loop_cons.
  assert (bnse_component G self amplitudes means variances tt 0
          = ([], inl IndexError)) as ->; [| done].
  unfold bnse_component. rewrite (np_attr_numpy G junk "empty") by done.
  rewrite bind_ret. unfold py_index, get_input_dims. by rewrite Hch.
Qed.

Lemma estimate_params_BNSE_no_channel_witness :
  estimate_params (repaired_globals (λ _, 0%R))
    {| name := "SM-LMC";
       dataset := {| channels := [];
                     get_bnse_estimation := get_bnse_estimation example_dataset |};
       Q := 1; Rq := 1; kernel_of := Noise 0 0 |}
    "BNSE" "BNSE" "BFGS" 2000 false
  = ([], inl IndexError).
Proof.
  apply (estimate_params_BNSE_no_channel (repaired_globals (λ _, 0%R)) (λ _, 0%R));
    first [reflexivity | cbn; lia].
Defined.

(** X10. With [Q <= 0] and numpy bound, a BNSE estimation has no component
    to process: it completes with a single write, the noise vector, at
    index [Q] (a negative index when [Q] is negative), without reading the
    PSD estimate. *)
Theorem estimate_params_BNSE_nonpositive_Q G junk self sm_init sm_method sm_maxiter plot :
  G !! "np" = Some (GNumpy junk) → (Q self ≤ 0)%Z →
  estimate_params G self "BNSE" sm_init sm_method sm_maxiter plot
  = ([EvSetParam (Q self) "noise" (PVec (spec_noise (dataset self)))], inr tt).
Proof.
  intros Hnp HQ. unfold estimate_params.
  rewrite bool_decide_eq_true_2 by done.
  destruct (get_bnse_estimation _ _) as [[amplitudes means] variances].
  unfold py_range. replace (Z.to_nat (Q self)) with 0 by lia. cbn [seq].
  by rewrite for_loop_nil, bind_ret, (estimate_noise_numpy G junk).
Qed.

Lemma estimate_params_BNSE_nonpositive_Q_witness :
  estimate_params (repaired_globals (λ _, 0%R)) (example_model (-1))
    "BNSE" "BNSE" "BFGS" 2000 false
  = ([EvSetParam (-1) "noise" (PVec (spec_noise example_dataset))], inr tt).
Proof.
  apply (estimate_params_BNSE_nonpositive_Q (repaired_globals (λ _, 0%R)) (λ _, 0%R)
           (example_model (-1)));
    first [reflexivity | cbn; lia].
Defined.

(** ** The noise vector *)

Lemma Rsum_nonneg (l : list R) : Forall (λ x, 0 <= x)%R l → (0 <= Rsum l)%R.
Proof.
  induction 1 as [|x l Hx _ IH]; cbn; [lra |]. unfold Rsum in IH. lra.
Qed.

Lemma np_var_nonneg (l : list R) : l ≠ [] → (0 <= np_var l)%R.
Proof.
  intros Hne. unfold np_var, np_mean at 1. rewrite length_map.
  apply Rmult_le_pos.
  - apply Rsum_nonneg, Forall_forall.
    intros x (y & -> & _)%list_elem_of_fmap. apply Rle_0_sqr.
  - apply Rlt_le, Rinv_0_lt_compat, lt_0_INR. destruct l; [done | cbn; lia].
Qed.

(** X13. With numpy bound and every channel holding at least one
    observation, lines 87-90 write one noise entry per channel and every
    entry is non-negative. *)
Theorem estimate_noise_nonnegative G junk self :
  G !! "np" = Some (GNumpy junk) →
  Forall (λ c, Y c ≠ []) (channels (dataset self)) →
  ∃ noise,
    estimate_noise G self = ([EvSetParam (Q self) "noise" (PVec noise)], inr tt)
    ∧ length noise = get_output_dims (dataset self)
    ∧ Forall (λ x, 0 <= x)%R noise.
Proof.
  intros Hnp HY. exists (spec_noise (dataset self)). split_and!.
  - by apply (estimate_noise_numpy G junk).
  - apply length_map.
  - unfold spec_noise. apply Forall_forall.
    intros x (c & -> & Hc)%list_elem_of_fmap.
    apply Rmult_le_pos; [| lra].
    apply np_var_nonneg. by apply (proj1 (Forall_forall _ _) HY).
Qed.

Lemma estimate_noise_nonnegative_witness :
  ∃ noise,
    estimate_noise (repaired_globals (λ _, 0%R)) (example_model 1)
    = ([EvSetParam 1 "noise" (PVec noise)], inr tt)
    ∧ length noise = 2
    ∧ Forall (λ x, 0 <= x)%R noise.
Proof.
  apply (estimate_noise_nonnegative (repaired_globals (λ _, 0%R)) (λ _, 0%R)
           (example_model 1)); [reflexivity |].
  repeat constructor; discriminate.
Defined.

(** ** Shapes, and the memory left by [np.empty] *)

(** X15. With numpy bound, the constant that a BNSE pass writes has one row
    per input dimension of the first channel and one column per channel,
    and its rows are all equal; the mean and the scale have one entry per
    index of the second axis of the means and of the variances array, which
    the code does not compare with the input dimensionality of the
    dataset. *)
Theorem bnse_component_shapes G junk self c cs amplitudes means variances q :
  G !! "np" = Some (GNumpy junk) →
  channels (dataset self) = c :: cs →
  len (dataset self) ≤ dim0 amplitudes →
  q < dim2 amplitudes → q < dim2 means → q < dim2 variances →
  ∃ constant mean_ scale_,
    bnse_component G self amplitudes means variances tt q
    = ([EvSetParam (Z.of_nat q) "constant" (PMat constant);
        EvSetParam (Z.of_nat q) "mean" (PVec mean_);
        EvSetParam (Z.of_nat q) "scale" (PVec scale_)], inr tt)
    ∧ length constant = input_dims c
    ∧ (∀ row, row ∈ constant → length row = get_output_dims (dataset self))
    ∧ (∀ row1 row2, row1 ∈ constant → row2 ∈ constant → row1 = row2)
    ∧ length mean_ = dim1 means
    ∧ length scale_ = dim1 variances.
Proof.
  intros Hnp Hch Hlen Hqa Hqm Hqv.
  rewrite (bnse_component_numpy G junk self c cs) by done.
  unfold spec_bnse_writes. do 3 eexists. split; [reflexivity |].
  unfold spec_constant, channel_average. split_and!.
  - apply length_replicate.
  - intros row [-> _]%elem_of_replicate. by rewrite length_map, length_seq.
  - intros row1 row2 [-> _]%elem_of_replicate [-> _]%elem_of_replicate. done.
  - by rewrite !length_map, length_seq.
  - by rewrite !length_map, length_seq.
Qed.

Lemma bnse_component_shapes_witness :
  ∃ constant mean_ scale_,
    bnse_component (repaired_globals (λ _, 0%R)) (example_model 1)
      example_peaks example_peaks example_peaks tt 0
    = ([EvSetParam 0 "constant" (PMat constant);
        EvSetParam 0 "mean" (PVec mean_);
        EvSetParam 0 "scale" (PVec scale_)], inr tt)
    ∧ length constant = 1
    ∧ (∀ row, row ∈ constant → length row = 2)
    ∧ (∀ row1 row2, row1 ∈ constant → row2 ∈ constant → row1 = row2)
    ∧ length mean_ = 1
    ∧ length scale_ = 1.
Proof.
  apply (bnse_component_shapes (repaired_globals (λ _, 0%R)) (λ _, 0%R)
           (example_model 1)
           {| input_dims := 1; Y := [1; 3]%R |}
           [ {| input_dims := 1; Y := [2; 2; 5]%R |} ]);
    first [reflexivity | cbn; lia].
Defined.

Lemma bind_assoc {A B C} (m : Run A) (f : A → Run B) (g : B → Run C) :
  (m ≫= f) ≫= g = m ≫= (λ a, f a ≫= g).
Proof.
  destruct m as [t [e|a]]; [done |].
  rewrite !bind_done. destruct (f a) as [t' [e'|b]].
  - by rewrite !bind_failed.
  - rewrite !trace_pair, !outcome_pair, !bind_done.
    by rewrite !trace_pair, !outcome_pair, app_assoc.
Qed.

Lemma for_loop_app {X S} (l1 l2 : list X) (body : S → X → Run S) s :
  for_loop (l1 ++ l2) body s = for_loop l1 body s ≫= for_loop l2 body.
Proof.
  revert s. induction l1 as [|x l1 IH]; intros s.
  - cbn [app]. by rewrite for_loop_nil, bind_ret.
  - cbn [app]. rewrite !for_loop_cons, bind_assoc.
    destruct (body s x) as [t [e|s']]; [done |].
    by rewrite !bind_done, IH.
Qed.

Lemma for_loop_ext {X S} (xs : list X) (body1 body2 : S → X → Run S) s :
  (∀ s x, body1 s x = body2 s x) →
  for_loop xs body1 s = for_loop xs body2 s.
Proof.
  intros Hext. revert s. induction xs as [|x xs IH]; intros s; [done |].
  rewrite !for_loop_cons, Hext.
  destruct (body2 s x) as [t [e|s']]; [done |]. by rewrite !bind_done, IH.
Qed.

(** The passes of the loop of lines 68-69 as far as the amplitudes reach. *)
Lemma fill_column_step_within amplitudes junk q D M k :
  k < M → k < dim0 amplitudes → q < dim2 amplitudes →
  fill_column amplitudes q (filled_columns amplitudes junk q D M k) k
  = mret (filled_columns amplitudes junk q D M (S k)).
Proof.
  intros Hk Hk0 Hq. unfold fill_column, slice_i_k.
  rewrite bool_decide_eq_true_2 by lia. rewrite bind_ret.
  unfold set_column. rewrite bool_decide_eq_true_2 by done.
  f_equal. unfold filled_columns. cbn [ncols mrows]. do 2 f_equal.
  rewrite map_map. apply map_ext. intros i.
  replace (M - k) with (S (M - S k)) by lia.
  rewrite (seq_S k 0), map_app. cbn [seq map plus].
  rewrite insert_app_r_alt by (rewrite length_map, length_seq; lia).
  rewrite length_map, length_seq, Nat.sub_diag. cbn [insert list_insert].
  by rewrite <- app_assoc.
Qed.

Lemma fill_columns_within amplitudes junk q D M k n :
  k + n ≤ M → k + n ≤ dim0 amplitudes → q < dim2 amplitudes →
  for_loop (seq k n) (fill_column amplitudes q)
           (filled_columns amplitudes junk q D M k)
  = mret (filled_columns amplitudes junk q D M (k + n)).
Proof.
  revert k. induction n as [|n IH]; intros k HM H0 Hq.
  - by rewrite Nat.add_0_r.
  - cbn [seq]. rewrite for_loop_cons, fill_column_step_within, bind_ret by lia.
    rewrite IH by lia. do 2 f_equal. lia.
Qed.

Lemma fill_column_out_channel amplitudes q constant channel :
  dim0 amplitudes ≤ channel →
  fill_column amplitudes q constant channel = raise IndexError.
Proof.
  intros H. unfold fill_column, slice_i_k.
  by rewrite bool_decide_eq_false_2 by lia.
Qed.

(** The loop of lines 68-69 in closed form: the matrix of mean amplitudes,
    or [IndexError] when the amplitudes do not cover the channels or the
    component. The initial content of the array plays no part. *)
Lemma fill_columns_closed amplitudes junk q D M :
  for_loop (seq 0 M) (fill_column amplitudes q) (np_empty2 junk D M)
  = if bool_decide (M = 0 ∨ (M ≤ dim0 amplitudes ∧ q < dim2 amplitudes))
    then mret (amplitude_matrix amplitudes q D M)
    else raise IndexError.
Proof.
  case_bool_decide as Hc.
  - destruct (decide (M = 0)) as [-> | HM].
    + cbn [seq]. rewrite for_loop_nil. f_equal.
      unfold np_empty2, amplitude_matrix. cbn [seq map]. f_equal.
      apply map_const_seq.
    + apply fill_columns_all; lia.
  - destruct (decide (q < dim2 amplitudes)) as [Hq | Hq].
    + assert (dim0 amplitudes < M) as Hlt by lia.
      replace M with (dim0 amplitudes + S (M - S (dim0 amplitudes))) at 1 by lia.
      rewrite seq_app, for_loop_app. cbn [plus seq].
      rewrite <- (filled_0 amplitudes junk q D M).
      rewrite (fill_columns_within _ _ _ _ _ 0) by lia.
      by rewrite bind_ret, for_loop_cons, fill_column_out_channel by lia.
    + destruct M as [|M]; [lia |]. cbn [seq].
      by rewrite for_loop_cons, fill_column_out by lia.
Qed.

Lemma bnse_component_junk G1 G2 junk1 junk2 self amplitudes means variances q :
  G1 !! "np" = Some (GNumpy junk1) → G2 !! "np" = Some (GNumpy junk2) →
  bnse_component G1 self amplitudes means variances tt q
  = bnse_component G2 self amplitudes means variances tt q.
Proof.
  intros H1 H2. unfold bnse_component.
  rewrite !(np_attr_numpy G1 junk1), !(np_attr_numpy G2 junk2) by done.
  rewrite !bind_ret. destruct (py_index _ 0) as [t [e|d]]; [done |].
  rewrite !bind_done. unfold py_range. rewrite Nat2Z.id.
  unfold len, get_output_dims. by rewrite !fill_columns_closed.
Qed.

(** X16. What [np.empty] leaves in the fresh arrays of lines 67 and 87
    never reaches a parameter nor changes the outcome: two runs of
    [estimate_params] that differ only in the initial content of these
    arrays are equal, for every method, dataset and estimate, also when
    the run raises. *)
Theorem estimate_params_ignores_uninitialised G junk1 junk2 self
    method sm_init sm_method sm_maxiter plot :
  estimate_params (<["np" := GNumpy junk1]> G) self method
    sm_init sm_method sm_maxiter plot
  = estimate_params (<["np" := GNumpy junk2]> G) self method
      sm_init sm_method sm_maxiter plot.
Proof.
  set (G1 := <["np" := GNumpy junk1]> G). set (G2 := <["np" := GNumpy junk2]> G).
  assert (H1 : G1 !! "np" = Some (GNumpy junk1)) by apply lookup_insert_eq.
  assert (H2 : G2 !! "np" = Some (GNumpy junk2)) by apply lookup_insert_eq.
  assert (Hsm : G1 !! "_estimate_from_sm" = G2 !! "_estimate_from_sm").
  { unfold G1, G2. by rewrite !lookup_insert_ne by done. }
  unfold estimate_params.
  rewrite (estimate_noise_numpy G1 junk1), (estimate_noise_numpy G2 junk2) by done.
  f_equal. case_bool_decide.
  - destruct (get_bnse_estimation _ _) as [[amplitudes means] variances].
    apply for_loop_ext. intros [] q.
    by apply (bnse_component_junk G1 G2 junk1 junk2).
  - case_bool_decide; [| done].
    unfold _estimate_from_sm, load_global. by rewrite Hsm.
Qed.

(** ** When an estimation completes *)

(** A loop without loop-carried variables completes exactly when every
    pass does. *)
Lemma for_loop_completes_iff {X} (xs : list X) (body : unit → X → Run unit) :
  outcome (for_loop xs body tt) = inr tt
  ↔ ∀ x, x ∈ xs → outcome (body tt x) = inr tt.
Proof.
  induction xs as [|x xs IH].
  - split; [intros _ x Hx; by apply elem_of_nil in Hx | done].
  - rewrite for_loop_cons, outcome_bind. split.
    + intros H y Hy. destruct (outcome (body tt x)) as [e|[]] eqn:Hx; [done |].
      apply elem_of_cons in Hy as [-> | Hy]; [done |]. by apply IH.
    + intros H. rewrite (H x) by by left.
      apply IH. intros y Hy. apply H. by right.
Qed.

(** With numpy bound, a pass of the BNSE loop completes exactly when the
    dataset has a channel, the amplitudes cover the channels and the three
    arrays cover the component. *)
Lemma bnse_component_completes_iff G junk self amplitudes means variances q :
  G !! "np" = Some (GNumpy junk) →
  outcome (bnse_component G self amplitudes means variances tt q) = inr tt
  ↔ channels (dataset self) ≠ []
    ∧ len (dataset self) ≤ dim0 amplitudes
    ∧ q < dim2 amplitudes ∧ q < dim2 means ∧ q < dim2 variances.
Proof.
  intros Hnp. destruct (channels (dataset self)) as [|c cs] eqn:Hch.
  - split; [| by intros [? _]]. intros H. exfalso. revert H.
    unfold bnse_component. rewrite (np_attr_numpy G junk "empty") by done.
    rewrite bind_ret. unfold py_index, get_input_dims. by rewrite Hch.
  - destruct (decide (len (dataset self) ≤ dim0 amplitudes)) as [Hlen | Hlen].
    + destruct (decide (q < dim2 amplitudes ∧ q < dim2 means ∧ q < dim2 variances))
        as [(Ha & Hm & Hv) | Hout].
      * rewrite (bnse_component_numpy G junk self c cs) by done.
        by split.
      * rewrite (bnse_component_out_of_range G junk self c cs) by (done || lia).
        split; [done | intros (_ & _ & ?); tauto].
    + split; [| intros (_ & ? & _); lia]. intros H. exfalso. revert H.
      unfold bnse_component. rewrite !(np_attr_numpy G junk) by done.
      rewrite bind_ret, (first_input_dims _ c cs Hch), bind_ret.
      unfold py_range. rewrite Nat2Z.id. unfold len, get_output_dims in *.
      rewrite fill_columns_closed, bool_decide_eq_false_2; [done |].
      rewrite Hch in *. cbn [length] in *. lia.
Qed.

(** X17. With numpy bound, a BNSE estimation completes exactly when there
    is no component to estimate ([Q <= 0]) or the dataset has a channel,
    the amplitudes array covers every channel of the dataset and each of
    the three arrays holds at least [Q] peaks. *)
Theorem estimate_params_BNSE_completes_iff G junk self sm_init sm_method sm_maxiter plot :
  let est := get_bnse_estimation (dataset self) (Q self) in
  G !! "np" = Some (GNumpy junk) →
  outcome (estimate_params G self "BNSE" sm_init sm_method sm_maxiter plot) = inr tt
  ↔ (Q self ≤ 0)%Z
    ∨ (channels (dataset self) ≠ []
       ∧ len (dataset self) ≤ dim0 est.1.1
       ∧ Z.to_nat (Q self) ≤ dim2 est.1.1
       ∧ Z.to_nat (Q self) ≤ dim2 est.1.2
       ∧ Z.to_nat (Q self) ≤ dim2 est.2).
Proof.
  intros est Hnp. unfold estimate_params.
  rewrite bool_decide_eq_true_2 by done.
  subst est. destruct (get_bnse_estimation _ _) as [[amplitudes means] variances].
  cbn [fst snd].
  rewrite outcome_bind, (estimate_noise_numpy G junk) by done.
  rewrite outcome_pair.
  assert (Hloop :
    outcome (for_loop (py_range (Q self))
               (bnse_component G self amplitudes means variances) tt) = inr tt
    ↔ ∀ q, q < Z.to_nat (Q self) →
        channels (dataset self) ≠ []
        ∧ len (dataset self) ≤ dim0 amplitudes
        ∧ q < dim2 amplitudes ∧ q < dim2 means ∧ q < dim2 variances).
  { rewrite for_loop_completes_iff. unfold py_range. split.
    - intros H q Hq. apply (bnse_component_completes_iff G junk); [done |].
      apply H, elem_of_seq. lia.
    - intros H q Hq%elem_of_seq.
      apply (bnse_component_completes_iff G junk); [done |]. apply H. lia. }
  destruct (outcome (for_loop _ _ _)) as [e|[]] eqn:Hout.
  - split; [done |]. intros Hcond. exfalso.
    assert (inl e = inr tt :> exn + unit); [| done].
    apply Hloop. intros q Hq. destruct Hcond as [HQ | (? & ? & ? & ? & ?)]; [lia |].
    split_and!; (done || lia).
  - split; [| done]. intros _.
    destruct (decide (Q self ≤ 0)%Z) as [HQ | HQ]; [by left | right].
    assert (Hlast : Z.to_nat (Q self) - 1 < Z.to_nat (Q self)) by lia.
    destruct (proj1 Hloop eq_refl _ Hlast) as (? & ? & ? & ? & ?).
    split_and!; (done || lia).
Qed.

Lemma estimate_params_BNSE_completes_iff_witness :
  outcome (estimate_params (repaired_globals (λ _, 0%R)) (example_model 2)
             "BNSE" "BNSE" "BFGS" 2000 false) ≠ inr tt.
Proof.
  intros H.
  apply (estimate_params_BNSE_completes_iff (repaired_globals (λ _, 0%R)) (λ _, 0%R)
           (example_model 2) "BNSE" "BFGS" 2000 false eq_refl) in H.
  cbn in H. destruct H as [H | (_ & _ & H & _)]; lia.
Defined.

(** X18. With the fit function and numpy bound and [Rq = 1], an SM
    estimation completes exactly when the fit returned at least [Q]
    components. *)
Theorem estimate_params_SM_completes_iff G junk fit self sm_init sm_method sm_maxiter plot :
  G !! "np" = Some (GNumpy junk) →
  G !! "_estimate_from_sm" = Some (GEstimateFromSM fit) →
  Rq self = 1%Z →
  outcome (estimate_params G self "SM" sm_init sm_method sm_maxiter plot) = inr tt
  ↔ Z.to_nat (Q self)
    ≤ length (fit (dataset self) (Q self) sm_init sm_method sm_maxiter plot).
Proof.
  intros Hnp Hfit HRq.
  set (params := fit (dataset self) (Q self) sm_init sm_method sm_maxiter plot).
  unfold estimate_params.
  rewrite bool_decide_eq_false_2 by done. rewrite bool_decide_eq_true_2 by done.
  unfold _estimate_from_sm, load_global. rewrite Hfit, !bind_ret. fold params.
  rewrite outcome_bind, (estimate_noise_numpy G junk) by done.
  rewrite outcome_pair.
  assert (Hpass : ∀ q, outcome (sm_component self params tt q) = inr tt
                       ↔ q < length params).
  { intros q. destruct (params !! q) as [p|] eqn:Hp.
    - rewrite (sm_component_fitted self params q p) by done.
      split; [intros _; by eapply lookup_lt_Some | done].
    - unfold sm_component, py_index. rewrite Hp.
      apply lookup_ge_None in Hp. split; [done | lia]. }
  destruct (outcome (for_loop _ _ _)) as [e|[]] eqn:Hout.
  - split; [done |]. intros Hlen. exfalso.
    assert (inl e = inr tt :> exn + unit); [| done].
    rewrite <- Hout. apply for_loop_completes_iff.
    intros q Hq%elem_of_seq. apply Hpass. lia.
  - split; [| done]. intros _.
    destruct (decide (Z.to_nat (Q self) = 0)) as [-> | HQ]; [lia |].
    assert (Z.to_nat (Q self) - 1 < length params); [| lia].
    apply Hpass. apply (proj1 (for_loop_completes_iff _ _) Hout).
    apply elem_of_seq. lia.
Qed.

Lemma estimate_params_SM_completes_iff_witness :
  outcome (estimate_params (repaired_globals (λ _, 0%R)) (example_model 1)
             "SM" "BNSE" "BFGS" 2000 false) = inr tt.
Proof.
  apply (estimate_params_SM_completes_iff (repaired_globals (λ _, 0%R)) (λ _, 0%R)
           example_fit (example_model 1));
    first [reflexivity | cbn; lia].
Defined.
